(** * ldaptoid: a shallow embedding of the LDAP projection service

    The development follows the TypeScript sources of the repository:

    - [IdAllocator]      services/id_allocator.ts   (salted FNV-1a ids)
    - [SnapshotBuilder]  services/snapshot_builder.ts
    - [RefreshScheduler] services/refresh_scheduler.ts
    - [LDAPCodec]        protocol/ldap.ts            (search-filter parsing)
    - [LDAPServer]       services/ldap_server.ts     (bind and search)

    Conventions.  A JavaScript string is a [string]; one character stands
    for one UTF-16 code unit (so the development covers the code units
    0..255).  A JavaScript number that the code uses as an integer is a
    [Z]; where the allocator counts with it ([x++], [x + 1]) the sum is
    rounded as the double it is ([JS.succ]).  A value that may be
    [undefined] is an [option].  A method that mutates [this] takes the
    state and returns the new one. *)

From Stdlib Require Import ZArith String Ascii DecimalString Lia.
From stdpp Require Import gmap strings list.

#[local] Set Warnings "-register-all".

Open Scope Z_scope.

(** ** Results of effectful code *)

(** A call returns a value, throws, or (only in the model) exhausts the
    fuel of a loop that the source writes as [while (true)].  Code that
    mutates an object returns the outcome together with the object's new
    state, so what was written before a [throw] stays written. *)
Inductive outcome (A : Type) : Type :=
| Ok (a : A)
| Throw (msg : string)
| OutOfFuel.
Arguments Ok {A} a.
Arguments Throw {A} msg.
Arguments OutOfFuel {A}.

Definition bind_outcome {A B} (m : outcome A) (k : A -> outcome B) : outcome B :=
  match m with
  | Ok a => k a
  | Throw e => Throw e
  | OutOfFuel => OutOfFuel
  end.

#[global] Instance outcome_ret : MRet outcome := @Ok.
#[global] Instance outcome_bind : MBind outcome := fun A B k m => bind_outcome m k.
#[global] Instance outcome_fmap : FMap outcome := fun A B f m =>
  match m with
  | Ok a => Ok (f a)
  | Throw e => Throw e
  | OutOfFuel => OutOfFuel
  end.

(** ** JavaScript strings *)

Module JS.

(** [s.charCodeAt(i)] for every [i]: the code units of [s]. *)
Definition charCode (a : ascii) : Z := Z.of_N (N_of_ascii a).
Definition charCodes (s : string) : list Z := charCode <$> list_ascii_of_string s.

(** [String(n)] and the template substitution of a non-negative integer. *)
Definition ofNat (n : Z) : string := NilZero.string_of_uint (N.to_uint (Z.to_N n)).

(** Truthiness of a string: the empty string is falsy. *)
Definition truthy (s : string) : bool := negb (String.eqb s "").

(** Truthiness of an optional string ([undefined] is falsy). *)
Definition truthyOpt (o : option string) : bool :=
  match o with Some s => truthy s | None => false end.

(** Truthiness of an optional number: [undefined] and [0] are falsy. *)
Definition truthyNum (o : option Z) : bool :=
  match o with Some n => negb (n =? 0) | None => false end.

(** Numbers.  The numbers of the code are IEEE 754 doubles; the ones it
    counts with hold integers.  Every integer of magnitude up to 2^53 is a
    double.  Beyond, the doubles lie [ulp] apart, and the result of an
    addition is the double nearest to the sum, the one with the even
    mantissa when the sum lies half way between two. *)
Definition MAX_SAFE_INTEGER : Z := 2 ^ 53 - 1.

Definition roundToDouble (n : Z) : Z :=
  let a := Z.abs n in
  if a <=? 2 ^ 53 then n
  else
    let ulp := 2 ^ (Z.log2 a - 52) in
    let q := a / ulp in
    let r := a mod ulp in
    let q' := if 2 * r <? ulp then q
              else if ulp <? 2 * r then q + 1
              else if Z.even q then q else q + 1 in
    Z.sgn n * (q' * ulp).

(** [x + 1] on numbers, which is also what [x++] stores: from 2^53 on it
    is [x] again. *)
Definition succ (x : Z) : Z := roundToDouble (x + 1).

(** [Number.isSafeInteger(n)]. *)
Definition isSafeInteger (n : Z) : Prop :=
  - MAX_SAFE_INTEGER <= n <= MAX_SAFE_INTEGER.

(** The UTF-8 encoding of a string of code units below 256: a code unit
    below 128 is one byte, the others take two. *)
Definition utf8_of_code (c : Z) : list Z :=
  if c <? 128 then [c]
  else [Z.lor 0xC0 (Z.shiftr c 6); Z.lor 0x80 (Z.land c 0x3F)].
Definition utf8 (s : string) : list Z := charCodes s ≫= utf8_of_code.

Definition isAscii (s : string) : Prop := Forall (fun c => c < 128) (charCodes s).

End JS.

(** ** More of the JavaScript string library *)

Module JSString.

Definition code (a : ascii) : Z := Z.of_N (N_of_ascii a).
Definition char (c : Z) : ascii := ascii_of_N (Z.to_N c).

Definition chars (s : string) : list ascii := list_ascii_of_string s.
Definition ofChars (l : list ascii) : string := string_of_list_ascii l.

(** [String(n)] for an integer. *)
Definition ofInt (n : Z) : string :=
  if n <? 0 then "-" +:+ JS.ofNat (- n) else JS.ofNat n.

(** [toLowerCase()] on the code units below 256: A-Z, and the capital
    letters of Latin-1 (U+00C0..U+00DE without the multiplication sign). *)
Definition lowerCode (c : Z) : Z :=
  if ((65 <=? c) && (c <=? 90))
     || ((192 <=? c) && (c <=? 222) && negb (c =? 215))
  then c + 32 else c.

Definition toLowerCase (s : string) : string :=
  ofChars ((fun a => char (lowerCode (code a))) <$> chars s).

(** The class [\s] of regular expressions, which is also what [trim()]
    removes: tab, line feed, vertical tab, form feed, carriage return,
    space, no-break space. *)
Definition isSpace (a : ascii) : bool :=
  let c := code a in ((9 <=? c) && (c <=? 13)) || (c =? 32) || (c =? 160).

Fixpoint dropSpaces (l : list ascii) : list ascii :=
  match l with
  | a :: l' => if isSpace a then dropSpaces l' else l
  | [] => []
  end.

Definition trim (s : string) : string :=
  ofChars (rev (dropSpaces (rev (dropSpaces (chars s))))).

(** [s.replace(/\s+/g, "")]. *)
Definition removeSpaces (s : string) : string :=
  ofChars (filter (fun a => isSpace a = false) (chars s)).

(** [s.split(sep)] for a one-character separator. *)
Fixpoint splitChars (sep : ascii) (current : list ascii) (l : list ascii)
  : list string :=
  match l with
  | [] => [ofChars (rev current)]
  | a :: l' =>
      if Ascii.eqb a sep
      then ofChars (rev current) :: splitChars sep [] l'
      else splitChars sep (a :: current) l'
  end.

Definition split (sep : ascii) (s : string) : list string :=
  splitChars sep [] (chars s).

(** [parts.join(sep)]. *)
Fixpoint join (sep : string) (parts : list string) : string :=
  match parts with
  | [] => EmptyString
  | [p] => p
  | p :: rest => p +:+ sep +:+ join sep rest
  end.

(** [s.trim().split(/\s+/).filter(Boolean)]: the maximal runs of
    characters that are not spaces. *)
Fixpoint wordsOf (current : list ascii) (l : list ascii) : list string :=
  match l with
  | [] => match current with [] => [] | _ => [ofChars (rev current)] end
  | a :: l' =>
      if isSpace a
      then match current with
           | [] => wordsOf [] l'
           | _ => ofChars (rev current) :: wordsOf [] l'
           end
      else wordsOf (a :: current) l'
  end.

Definition words (s : string) : list string := wordsOf [] (chars s).

Definition startsWith (s t : string) : bool := String.prefix t s.

Definition endsWith (s t : string) : bool :=
  let ls := String.length s in
  let lt := String.length t in
  (lt <=? ls)%nat && String.eqb (String.substring (ls - lt) lt s) t.

Definition includes (s t : string) : bool :=
  match String.index 0 t s with Some _ => true | None => false end.

(** [s.slice(k)] for [0 <= k]. *)
Definition sliceFrom (k : nat) (s : string) : string :=
  String.substring k (String.length s - k) s.

(** [s.charCodeAt(k)]; [None] stands for NaN. *)
Definition charCodeAt (k : nat) (s : string) : option Z :=
  code <$> String.get k s.

(** [a || b] on strings. *)
Definition orElse (a b : string) : string := if JS.truthy a then a else b.

(** [array.slice(0, end)] for an integer [end]. *)
Definition slice0 {A} (l : list A) (end_ : Z) : list A :=
  let len := Z.of_nat (length l) in
  let k := if end_ <? 0 then Z.max (len + end_) 0 else Z.min end_ len in
  take (Z.to_nat k) l.

End JSString.

(** ** services/id_allocator.ts *)

Module IdAllocator.

(** FNV-1a 64-bit constants. *)
Definition FNV_OFFSET : Z := 0xcbf29ce484222325.
Definition FNV_PRIME : Z := 0x100000001b3.

(** [BigInt.asUintN(64, x)]. *)
Definition asUintN64 (x : Z) : Z := x mod 2 ^ 64.

Record AllocationResult : Type := {
  id : Z;
  hashed : bool;
  collisionCount : Z;
}.

Record IdAllocatorOptions : Type := {
  opt_salt : string;
  opt_retryLimit : option Z;
  opt_floor : option Z;
  opt_ceiling : option Z;
  opt_sequentialStart : option Z;
}.

Record InternalState : Type := {
  byKey : gmap string Z;
  byId : gmap Z string;
  nextSeq : Z;
  collisions : Z;
  fallbacks : Z;
}.

(** The read-only fields of the class. *)
Record Config : Type := {
  salt : string;
  retryLimit : Z;
  floor : Z;
  ceiling : option Z;
}.

Definition configOf (opts : IdAllocatorOptions) : Config :=
  {| salt := opt_salt opts;
     retryLimit := default 4 (opt_retryLimit opts);
     floor := default 10000 (opt_floor opts);
     ceiling := opt_ceiling opts |}.

(** The constructor's initial state. *)
Definition initialState (opts : IdAllocatorOptions) : InternalState :=
  {| byKey := ∅;
     byId := ∅;
     nextSeq := default (JS.succ (floor (configOf opts))) (opt_sequentialStart opts);
     collisions := 0;
     fallbacks := 0 |}.

(** One round of the loop of [hashToInt]. *)
Definition hashStep (hash c : Z) : Z := asUintN64 (Z.lxor hash c * FNV_PRIME).

Definition fnv1a64 (units : list Z) : Z := fold_left hashStep units FNV_OFFSET.

Definition hashToInt (input : string) : Z :=
  Z.land (fnv1a64 (JS.charCodes input)) 0x7fffffff.

Definition commit (key : string) (i : Z) (st : InternalState) : InternalState :=
  {| byKey := <[key := i]> (byKey st);
     byId := <[i := key]> (byId st);
     nextSeq := nextSeq st;
     collisions := collisions st;
     fallbacks := fallbacks st |}.

Definition setNextSeq (n : Z) (st : InternalState) : InternalState :=
  {| byKey := byKey st; byId := byId st; nextSeq := n;
     collisions := collisions st; fallbacks := fallbacks st |}.

Definition incCollisions (st : InternalState) : InternalState :=
  {| byKey := byKey st; byId := byId st; nextSeq := nextSeq st;
     collisions := JS.succ (collisions st); fallbacks := fallbacks st |}.

Definition incFallbacks (st : InternalState) : InternalState :=
  {| byKey := byKey st; byId := byId st; nextSeq := nextSeq st;
     collisions := collisions st; fallbacks := JS.succ (fallbacks st) |}.

Section WithConfig.

Variable cfg : Config.

(** [this.ceiling && candidate > this.ceiling]. *)
Definition aboveCeiling (candidate : Z) : bool :=
  match ceiling cfg with
  | Some c => negb (c =? 0) && (c <? candidate)
  | None => false
  end.

(** The loop of [nextSequential]; every round consumes one unit of fuel.
    [this.state.nextSeq++] yields the old value and stores its successor
    as a number. *)
Fixpoint nextSequentialLoop (fuel : nat) (st : InternalState)
  : outcome Z * InternalState :=
  match fuel with
  | O => (OutOfFuel, st)
  | S fuel' =>
      let candidate := nextSeq st in
      let st' := setNextSeq (JS.succ (nextSeq st)) st in
      if aboveCeiling candidate then
        (Throw "ID allocator sequential ceiling exhausted", st')
      else if decide (is_Some (byId st' !! candidate)) then
        nextSequentialLoop fuel' st'
      else (Ok candidate, st')
  end.

(** The reverse map is finite, so one more round than it has entries is
    enough while the counter advances (see [nextSequential_find]); when
    the fuel runs out the counter has stopped advancing on an id that is
    taken, and the loop of the source goes on for ever (see
    [nextSequentialLoop_stalls]). *)
Definition nextSequential (st : InternalState) : outcome Z * InternalState :=
  nextSequentialLoop (S (size (byId st))) st.

Definition hashInput (attempt : Z) (key : string) : string :=
  salt cfg +:+ ":" +:+ JS.ofNat attempt +:+ ":" +:+ key.

(** What one round of the hash loop of [allocate] does. *)
Inductive round : Type :=
| Continue (st : InternalState)
| Return (r : AllocationResult) (st : InternalState).

Definition hashRound (key : string) (attempt : Z) (st : InternalState) : round :=
  let hashId := hashToInt (hashInput attempt key) in
  if hashId <=? floor cfg then Continue st
  else if aboveCeiling hashId then Continue st
  else
    match byId st !! hashId with
    | None =>
        Return {| id := hashId; hashed := true; collisionCount := attempt |}
               (commit key hashId st)
    | Some currentKey =>
        if negb (JS.truthy currentKey) then
          Return {| id := hashId; hashed := true; collisionCount := attempt |}
                 (commit key hashId st)
        else if String.eqb currentKey key then
          Return {| id := hashId; hashed := true; collisionCount := attempt |} st
        else Continue (incCollisions st)
    end.

(** [while (attempt <= this.retryLimit) { ... attempt++ }]: [fuel] counts
    the rounds that remain.  [Ok None] is the exit of the loop; the fuel,
    one unit for each of the attempts [0 .. retryLimit], runs out only when
    [attempt++] has stopped advancing. *)
Fixpoint hashLoop (fuel : nat) (key : string) (attempt : Z) (st : InternalState)
  : outcome (option AllocationResult) * InternalState :=
  if attempt <=? retryLimit cfg then
    match fuel with
    | O => (OutOfFuel, st)
    | S fuel' =>
        match hashRound key attempt st with
        | Return r st' => (Ok (Some r), st')
        | Continue st' => hashLoop fuel' key (JS.succ attempt) st'
        end
    end
  else (Ok None, st).

Definition allocate (key : string) (st : InternalState)
  : outcome AllocationResult * InternalState :=
  match byKey st !! key with
  | Some existing =>
      (Ok {| id := existing;
             hashed := bool_decide (byId st !! existing = Some key);
             collisionCount := 0 |}, st)
  | None =>
      match hashLoop (Z.to_nat (retryLimit cfg + 1)) key 0 st with
      | (Ok (Some res), st') => (Ok res, st')
      | (Ok None, st1) =>
          match nextSequential st1 with
          | (Ok seqId, st2) =>
              (Ok {| id := seqId; hashed := false;
                     collisionCount := JS.succ (retryLimit cfg) |},
               commit key seqId (incFallbacks st2))
          | (Throw e, st2) => (Throw e, st2)
          | (OutOfFuel, st2) => (OutOfFuel, st2)
          end
      | (Throw e, st1) => (Throw e, st1)
      | (OutOfFuel, st1) => (OutOfFuel, st1)
      end
  end.

(** [importMapping]: entries whose key or id is already known are skipped. *)
Definition importEntry (st : InternalState) (e : string * Z) : InternalState :=
  let '(key, i) := e in
  if decide (is_Some (byKey st !! key)) then st
  else if decide (is_Some (byId st !! i)) then st
  else
    let st' := commit key i st in
    if nextSeq st' <=? i then setNextSeq (JS.succ i) st' else st'.

Definition importMapping (entries : list (string * Z)) (st : InternalState)
  : InternalState :=
  fold_left importEntry entries st.

End WithConfig.

End IdAllocator.

(** ** The allocation algorithm as the specification words it

    [encode] is the byte encoding the hash runs over; the specification
    names UTF-8.  The result is paired with the two maps after the call. *)

Module IdAllocatorSpec.
Import IdAllocator.

Section Spec.

Variable encode : string -> list Z.
Variable cfg : Config.

(** FNV-1a, 64 bit: xor the byte in, multiply by the prime, wrap. *)
Definition FNV1a64 (bytes : list Z) : Z :=
  fold_left (fun h b => (Z.lxor h b * 0x100000001B3) mod 2 ^ 64)
            bytes 0xCBF29CE484222325.

(** [h AND 0x7FFFFFFF] for [h = FNV1a64(salt || ":" || attempt || ":" || key)]. *)
Definition candidate (key : string) (attempt : Z) : Z :=
  Z.land (FNV1a64 (encode (salt cfg +:+ ":" +:+ JS.ofNat attempt +:+ ":" +:+ key)))
         0x7FFFFFFF.

Definition beyondCeiling (i : Z) : bool :=
  match ceiling cfg with Some c => c <? i | None => false end.

(** Reject [id <= floor] or [id > ceiling] (if set). *)
Definition rejected (i : Z) : bool := (i <=? floor cfg) || beyondCeiling i.

Definition free (st : InternalState) (i : Z) : bool :=
  bool_decide (byId st !! i = None).

Definition accepted (st : InternalState) (key : string) (attempt : Z) : bool :=
  negb (rejected (candidate key attempt)) && free st (candidate key attempt).

Definition committed (key : string) (i : Z) (st : InternalState)
  : gmap string Z * gmap Z string :=
  (<[key := i]> (byKey st), <[i := key]> (byId st)).

(** Attempts [0 .. retryLimit]; the first accepted candidate is committed.
    Otherwise the sequential counter runs from [nextSeq] over ids that are
    taken until it meets a free one (or passes the ceiling). *)
Definition allocate (key : string) (st : InternalState)
  : outcome (AllocationResult * (gmap string Z * gmap Z string)) :=
  match find (accepted st key) (seqZ 0 (retryLimit cfg + 1)) with
  | Some attempt =>
      Ok ({| id := candidate key attempt; hashed := true;
             collisionCount := attempt |},
          committed key (candidate key attempt) st)
  | None =>
      match find (fun i => beyondCeiling i || free st i)
                 (seqZ (nextSeq st) (Z.of_nat (size (byId st)) + 1)) with
      | Some i =>
          if beyondCeiling i
          then Throw "ID allocator sequential ceiling exhausted"
          else Ok ({| id := i; hashed := false;
                      collisionCount := retryLimit cfg + 1 |},
                   committed key i st)
      | None => OutOfFuel
      end
  end.

End Spec.

(** What the implementation's result is compared on. *)
Definition observe (r : outcome AllocationResult * InternalState)
  : outcome (AllocationResult * (gmap string Z * gmap Z string)) :=
  match r with
  | (Ok res, st) => Ok (res, (byKey st, byId st))
  | (Throw e, _) => Throw e
  | (OutOfFuel, _) => OutOfFuel
  end.

End IdAllocatorSpec.

(** ** Invariants of the allocator state *)

Module IdAllocatorInv.
Import IdAllocator.

(** The two maps are inverse to each other and no key is empty. *)
Record consistent (st : InternalState) : Prop := {
  key_to_id : forall k i, byKey st !! k = Some i -> byId st !! i = Some k;
  id_to_key : forall i k, byId st !! i = Some k -> byKey st !! k = Some i;
  key_nonempty : forall i k, byId st !! i = Some k -> k <> ""%string;
}.

(** Every id handed out so far, and the sequential cursor, lie above the
    floor; floor and cursor are in the range where numbers count exactly
    (the cursor may rest at 2^53, where it stops). *)
Record aboveFloor (cfg : Config) (st : InternalState) : Prop := {
  ids_above : forall k i, byKey st !! k = Some i -> floor cfg < i;
  cursor_above : floor cfg < nextSeq st;
  floor_exact : - 2 ^ 53 <= floor cfg;
  cursor_exact : nextSeq st <= 2 ^ 53;
}.

(** The sequential cursor and every id that is taken lie below [limit]. *)
Record below (limit : Z) (st : InternalState) : Prop := {
  cursor_low : - 2 ^ 53 <= nextSeq st;
  cursor_below : nextSeq st <= limit;
  ids_below : forall i k, byId st !! i = Some k -> i < limit;
}.

(** The allocator can hand out [n] more ids before its cursor leaves the
    safe integers: hashed ids are below 2^31, sequential ones are taken
    at the cursor. *)
Definition room (n : nat) (st : InternalState) : Prop :=
  exists limit, 2 ^ 31 <= limit /\ limit + Z.of_nat n < 2 ^ 53 /\ below limit st.

(** Mappings are never removed nor changed. *)
Definition keeps (st st' : InternalState) : Prop :=
  forall k i, byKey st !! k = Some i -> byKey st' !! k = Some i.

End IdAllocatorInv.

(** ** models/ and adaptors/types.ts *)

Module RawUser.
Record t : Type := {
  id : string;
  username : string;
  email : option string;
  enabled : bool;
  displayName : option string;
}.
End RawUser.

Module RawGroup.
Record t : Type := {
  id : string;
  name : string;
  description : option string;
  members : option (list string);
}.
End RawGroup.

Module User.
Record t : Type := {
  id : string;
  username : string;
  displayName : string;
  email : option string;
  active : bool;
  posixUid : Z;
  primaryGroupId : string;
  memberGroupIds : list string;
  createdAt : option string;
  updatedAt : option string;
}.

(** [user.memberGroupIds.push(groupId)]. *)
Definition pushMemberGroup (groupId : string) (u : t) : t :=
  {| id := id u; username := username u; displayName := displayName u;
     email := email u; active := active u; posixUid := posixUid u;
     primaryGroupId := primaryGroupId u;
     memberGroupIds := memberGroupIds u ++ [groupId];
     createdAt := createdAt u; updatedAt := updatedAt u |}.

(** A user without the two time stamps. *)
Definition withoutStamps (u : t) : t :=
  {| id := id u; username := username u; displayName := displayName u;
     email := email u; active := active u; posixUid := posixUid u;
     primaryGroupId := primaryGroupId u; memberGroupIds := memberGroupIds u;
     createdAt := None; updatedAt := None |}.
End User.

Module Group.
Record t : Type := {
  id : string;
  name : string;
  description : option string;
  memberUserIds : list string;
  memberGroupIds : list string;
  posixGid : Z;
  isSynthetic : bool;
  truncated : option bool;
}.
End Group.

Module Snapshot.
Record t : Type := {
  users : list User.t;
  groups : list Group.t;
  generatedAt : string;
  sequence : Z;
  featureFlags : list string;
}.
End Snapshot.

(** The adaptor's answer to one [fetchUsers()] and one [fetchGroups()]:
    each promise resolves or rejects. *)
Module Adaptor.
Record t : Type := {
  fetchUsers : outcome (list RawUser.t);
  fetchGroups : outcome (list RawGroup.t);
}.
End Adaptor.

(** ** services/snapshot_builder.ts *)

Module SnapshotBuilder.

(** [new Set(array)] and [[...set]]: the elements in the order of their
    first insertion. *)
Fixpoint setOf (seen l : list string) : list string :=
  match l with
  | [] => []
  | x :: l' =>
      if bool_decide (x ∈ seen) then setOf seen l' else x :: setOf (x :: seen) l'
  end.

Record SnapshotBuilderOptions : Type := {
  opt_enabledFeatures : list string;
  opt_maxGroupMembers : option Z;
}.

(** The read-only part of a builder: the configuration of its two
    allocators, its options, and the wall clock it reads ([clock k] is the
    value of the k-th [new Date().toISOString()] of the process). *)
Record Env : Type := {
  uidConfig : IdAllocator.Config;
  gidConfig : IdAllocator.Config;
  enabledFeatures : list string;
  maxGroupMembers : Z;
  clock : nat -> string;
}.

Definition envOf (uidc gidc : IdAllocator.Config) (opts : SnapshotBuilderOptions)
    (clk : nat -> string) : Env :=
  {| uidConfig := uidc; gidConfig := gidc;
     enabledFeatures := setOf [] (opt_enabledFeatures opts);
     maxGroupMembers := default 5000 (opt_maxGroupMembers opts);
     clock := clk |}.

(** The mutable part: both allocators, the sequence counter, and how many
    times the clock has been read. *)
Record State : Type := {
  uidAllocator : IdAllocator.InternalState;
  gidAllocator : IdAllocator.InternalState;
  sequenceCounter : Z;
  clockReads : nat;
}.

Definition M (A : Type) : Type := State -> outcome A * State.

#[global] Instance M_ret : MRet M := fun A a st => (Ok a, st).
#[global] Instance M_bind : MBind M := fun A B k m st =>
  match m st with
  | (Ok a, st') => k a st'
  | (Throw e, st') => (Throw e, st')
  | (OutOfFuel, st') => (OutOfFuel, st')
  end.

Fixpoint mapM {A B} (f : A -> M B) (l : list A) : M (list B) :=
  match l with
  | [] => mret []
  | x :: l' => y ← f x; ys ← mapM f l'; mret (y :: ys)
  end.

Section WithEnv.

Variable env : Env.

Definition has (flag : string) : bool := bool_decide (flag ∈ enabledFeatures env).

(** [new Date().toISOString()]. *)
Definition now : M string := fun st =>
  (Ok (clock env (clockReads st)),
      {| uidAllocator := uidAllocator st; gidAllocator := gidAllocator st;
         sequenceCounter := sequenceCounter st; clockReads := S (clockReads st) |}).

Definition allocateUid (key : string) : M Z := fun st =>
  let '(r, a) := IdAllocator.allocate (uidConfig env) key (uidAllocator st) in
  (IdAllocator.id <$> r,
   {| uidAllocator := a; gidAllocator := gidAllocator st;
      sequenceCounter := sequenceCounter st; clockReads := clockReads st |}).

Definition allocateGid (key : string) : M Z := fun st =>
  let '(r, a) := IdAllocator.allocate (gidConfig env) key (gidAllocator st) in
  (IdAllocator.id <$> r,
   {| uidAllocator := uidAllocator st; gidAllocator := a;
      sequenceCounter := sequenceCounter st; clockReads := clockReads st |}).

(** [++this.sequenceCounter]. *)
Definition nextSequence : M Z := fun st =>
  (Ok (sequenceCounter st + 1),
      {| uidAllocator := uidAllocator st; gidAllocator := gidAllocator st;
         sequenceCounter := sequenceCounter st + 1; clockReads := clockReads st |}).

Definition getSyntheticPrimaryGroupId (userId : string) : string :=
  if has "synthetic_primary_group" then "synthetic:" +:+ userId else "users".

(** The body of the [map] over the enabled users. *)
Definition toUser (user : RawUser.t) : M User.t :=
  uid ← allocateUid ("user:" +:+ RawUser.id user);
  created ← now;
  updated ← now;
  mret {| User.id := RawUser.id user;
          User.username := RawUser.username user;
          User.displayName :=
            (if JS.truthyOpt (RawUser.displayName user)
             then default EmptyString (RawUser.displayName user)
             else RawUser.username user);
          User.email := RawUser.email user;
          User.active := RawUser.enabled user;
          User.posixUid := uid;
          User.primaryGroupId := getSyntheticPrimaryGroupId (RawUser.id user);
          User.memberGroupIds := [];
          User.createdAt := Some created;
          User.updatedAt := Some updated |}.

(** [userIdMap.get(userId)] followed by the push: [userIdMap] is built from
    the users in order, so the last user with a given id is the one the map
    holds. [None] when no user has the id. *)
Fixpoint pushToLast (userId groupId : string) (users : list User.t)
  : option (list User.t) :=
  match users with
  | [] => None
  | u :: rest =>
      match pushToLast userId groupId rest with
      | Some rest' => Some (u :: rest')
      | None =>
          if String.eqb (User.id u) userId
          then Some (User.pushMemberGroup groupId u :: rest)
          else None
      end
  end.

Definition addMembership (groupId : string) (users : list User.t) (userId : string)
  : list User.t :=
  default users (pushToLast userId groupId users).

(** The body of the [map] of [processGroups]; the users are the objects the
    snapshot will hold, updated in place. *)
Definition toGroup (users : list User.t) (group : RawGroup.t)
  : M (Group.t * list User.t) :=
  gid ← allocateGid ("group:" +:+ RawGroup.id group);
  let memberUserIds := default [] (RawGroup.members group) in
  let truncated := maxGroupMembers env <? Z.of_nat (length memberUserIds) in
  let finalMemberIds :=
    if truncated then JSString.slice0 memberUserIds (maxGroupMembers env) else memberUserIds in
  let users' := fold_left (addMembership (RawGroup.id group)) finalMemberIds users in
  mret ({| Group.id := RawGroup.id group;
           Group.name := RawGroup.name group;
           Group.description := RawGroup.description group;
           Group.memberUserIds := finalMemberIds;
           Group.memberGroupIds := [];
           Group.posixGid := gid;
           Group.isSynthetic := false;
           Group.truncated := Some truncated |}, users').

Fixpoint processGroups (rawGroups : list RawGroup.t) (users : list User.t)
  : M (list Group.t * list User.t) :=
  match rawGroups with
  | [] => mret ([], users)
  | group :: rest =>
      '(g, users1) ← toGroup users group;
      '(gs, users2) ← processGroups rest users1;
      mret (g :: gs, users2)
  end.

Definition toSyntheticGroup (user : User.t) : M Group.t :=
  gid ← allocateGid ("synthetic:" +:+ User.id user);
  mret {| Group.id := "synthetic:" +:+ User.id user;
          Group.name := User.username user +:+ "-primary";
          Group.description := Some ("Primary group for " +:+ User.username user);
          Group.memberUserIds := [User.id user];
          Group.memberGroupIds := [];
          Group.posixGid := gid;
          Group.isSynthetic := true;
          Group.truncated := Some false |}.

Definition createSyntheticPrimaryGroups (users : list User.t) : M (list Group.t) :=
  mapM toSyntheticGroup users.

(** [Promise.all([fetchUsers(), fetchGroups()])]: a rejection of either
    call rejects the build. *)
Definition fetchAll (adaptor : Adaptor.t) : M (list RawUser.t * list RawGroup.t) :=
  fun st =>
    match Adaptor.fetchUsers adaptor, Adaptor.fetchGroups adaptor with
    | Ok us, Ok gs => (Ok (us, gs), st)
    | Throw e, _ => (Throw e, st)
    | _, Throw e => (Throw e, st)
    | _, _ => (OutOfFuel, st)
    end.

Definition buildSnapshot (adaptor : Adaptor.t) : M Snapshot.t :=
  '(rawUsers, rawGroups) ← fetchAll adaptor;
  users0 ← mapM toUser (filter (fun u => RawUser.enabled u = true) rawUsers);
  '(groups0, users) ← processGroups rawGroups users0;
  groups ← (if has "synthetic_primary_group"
            then syntheticGroups ← createSyntheticPrimaryGroups users;
                 mret (groups0 ++ syntheticGroups)
            else mret groups0);
  generatedAt ← now;
  sequence ← nextSequence;
  mret {| Snapshot.users := users;
          Snapshot.groups := groups;
          Snapshot.generatedAt := generatedAt;
          Snapshot.sequence := sequence;
          Snapshot.featureFlags := enabledFeatures env |}.

End WithEnv.

End SnapshotBuilder.

(** ** Predicates on builder states and snapshots *)

Module SnapshotBuilderInv.
Import SnapshotBuilder IdAllocatorInv.

(** The uid allocator of a builder state is good. *)
Definition goodUid (env : Env) (st : State) : Prop :=
  consistent (uidAllocator st) /\ aboveFloor (uidConfig env) (uidAllocator st).

(** What identifies a user in the directory: its id and its uidNumber. *)
Definition identity (u : User.t) : string * Z := (User.id u, User.posixUid u).

(** The uid allocator maps the user's key to the user's uidNumber. *)
Definition registered (st : State) (p : string * Z) : Prop :=
  IdAllocator.byKey (uidAllocator st) !! ("user:" +:+ p.1) = Some p.2.

(** The group the builder makes of a raw group: the member list is cut at
    [maxGroupMembers] exactly when it is longer. *)
Definition groupOf (env : Env) (raw : RawGroup.t) (g : Group.t) : Prop :=
  let members := default [] (RawGroup.members raw) in
  let tooLong := maxGroupMembers env <? Z.of_nat (length members) in
  Group.id g = RawGroup.id raw
  /\ Group.name g = RawGroup.name raw
  /\ Group.isSynthetic g = false
  /\ Group.truncated g = Some tooLong
  /\ Group.memberUserIds g =
     (if tooLong then JSString.slice0 members (maxGroupMembers env) else members).

(** A computation leaves a component of the builder state alone. *)
Definition stable {X A} (proj : State -> X) (m : M A) : Prop :=
  forall st, proj (m st).2 = proj st.

(** From every state that meets [P] the computation returns a value, and
    the value and the state it leaves meet [Q]. *)
Definition returns {A} (P : State -> Prop) (Q : A -> State -> Prop) (m : M A) : Prop :=
  forall st, P st -> exists a, (m st).1 = Ok a /\ Q a (m st).2.

(** The uid allocator has room for [nu] more ids and the gid allocator for
    [ng]. *)
Definition roomy (nu ng : nat) (st : State) : Prop :=
  room nu (uidAllocator st) /\ room ng (gidAllocator st).

Definition sameAllocators (st1 st2 : State) : Prop :=
  uidAllocator st1 = uidAllocator st2 /\ gidAllocator st1 = gidAllocator st2.

(** Two runs end alike: same kind of outcome, related values, same
    allocators. *)
Definition agree {A} (R : A -> A -> Prop) (x y : outcome A * State) : Prop :=
  sameAllocators x.2 y.2 /\
  match x.1, y.1 with
  | Ok a, Ok b => R a b
  | Throw e1, Throw e2 => e1 = e2
  | OutOfFuel, OutOfFuel => True
  | _, _ => False
  end.

(** Users that differ at most in their two time stamps. *)
Definition sameUser (u v : User.t) : Prop :=
  User.withoutStamps u = User.withoutStamps v.

Definition sameGroupsAndUsers (x y : list Group.t * list User.t) : Prop :=
  x.1 = y.1 /\ Forall2 sameUser x.2 y.2.

(** Snapshots with the same users up to the stamps, the same groups and
    the same feature flags. *)
Definition sameContent (S1 S2 : Snapshot.t) : Prop :=
  User.withoutStamps <$> Snapshot.users S1 = User.withoutStamps <$> Snapshot.users S2
  /\ Snapshot.groups S1 = Snapshot.groups S2
  /\ Snapshot.featureFlags S1 = Snapshot.featureFlags S2.

End SnapshotBuilderInv.

(** ** services/refresh_scheduler.ts *)

Module RefreshScheduler.

(** The delays are JavaScript numbers (IEEE 754 doubles); their arithmetic
    is an interface.  [Z] is the instance of whole milliseconds and a whole
    multiplier. *)
Class Millis (Number : Type) : Type := {
  ofInteger : Z -> Number;
  times : Number -> Number -> Number;
  minimum : Number -> Number -> Number;
}.

#[global] Instance Millis_Z : Millis Z :=
  {| ofInteger := fun n => n; times := Z.mul; minimum := Z.min |}.

Section WithNumber.

Context {Number : Type} `{Millis Number}.

Record RefreshSchedulerOptions : Type := {
  opt_refreshIntervalMs : Number;
  opt_maxBackoffMs : option Number;
  opt_backoffMultiplier : option Number;
  opt_maxRetries : option Z;
}.

(** The read-only fields. *)
Record Config : Type := {
  refreshIntervalMs : Number;
  maxBackoffMs : Number;
  backoffMultiplier : Number;
  maxRetries : Z;
}.

Definition configOf (opts : RefreshSchedulerOptions) : Config :=
  {| refreshIntervalMs := opt_refreshIntervalMs opts;
     maxBackoffMs := default (ofInteger 300000) (opt_maxBackoffMs opts);
     backoffMultiplier := default (ofInteger 2) (opt_backoffMultiplier opts);
     maxRetries := default 10 (opt_maxRetries opts) |}.

(** The mutable fields.  [timeoutId] holds the delay of the armed timer.
    [onSnapshotUpdate] tells whether the callback of the entry point, which
    hands the snapshot to the LDAP server, is registered. *)
Record State : Type := {
  currentSnapshot : option Snapshot.t;
  isRunning : bool;
  timeoutId : option Number;
  consecutiveFailures : Z;
  currentBackoffMs : Number;
  onSnapshotUpdate : bool;
}.

(** The scheduler, the builder it drives, and the snapshot reference of the
    LDAP server ([LDAPServer.currentSnapshot], written by the callback). *)
Record System : Type := {
  scheduler : State;
  builder : SnapshotBuilder.State;
  served : option Snapshot.t;
}.

Definition initial (b : SnapshotBuilder.State) : System :=
  {| scheduler := {| currentSnapshot := None; isRunning := false; timeoutId := None;
                     consecutiveFailures := 0; currentBackoffMs := ofInteger 0;
                     onSnapshotUpdate := false |};
     builder := b;
     served := None |}.

Definition setSnapshotUpdateCallback (sys : System) : System :=
  {| scheduler := {| currentSnapshot := currentSnapshot (scheduler sys);
                     isRunning := isRunning (scheduler sys);
                     timeoutId := timeoutId (scheduler sys);
                     consecutiveFailures := consecutiveFailures (scheduler sys);
                     currentBackoffMs := currentBackoffMs (scheduler sys);
                     onSnapshotUpdate := true |};
     builder := builder sys;
     served := served sys |}.

Section WithConfig.

Variable cfg : Config.
Variable env : SnapshotBuilder.Env.

Definition getCurrentSnapshot (sys : System) : option Snapshot.t :=
  currentSnapshot (scheduler sys).

(** The two snapshot references readers use. *)
Definition references (sys : System) : option Snapshot.t * option Snapshot.t :=
  (getCurrentSnapshot sys, served sys).

Definition isHealthy (sys : System) : bool :=
  (consecutiveFailures (scheduler sys) <? maxRetries cfg)
  && bool_decide (is_Some (currentSnapshot (scheduler sys))).

(** The [try] branch of [performRefresh] after the build has returned. *)
Definition refreshed (snapshot : Snapshot.t) (b : SnapshotBuilder.State)
    (sys : System) : System :=
  {| scheduler := {| currentSnapshot := Some snapshot;
                     isRunning := isRunning (scheduler sys);
                     timeoutId := timeoutId (scheduler sys);
                     consecutiveFailures := 0;
                     currentBackoffMs := ofInteger 0;
                     onSnapshotUpdate := onSnapshotUpdate (scheduler sys) |};
     builder := b;
     served := if onSnapshotUpdate (scheduler sys) then Some snapshot else served sys |}.

(** The [catch] branch. *)
Definition failed (b : SnapshotBuilder.State) (sys : System) : System :=
  let failures := consecutiveFailures (scheduler sys) + 1 in
  {| scheduler := {| currentSnapshot := currentSnapshot (scheduler sys);
                     isRunning := isRunning (scheduler sys);
                     timeoutId := timeoutId (scheduler sys);
                     consecutiveFailures := failures;
                     currentBackoffMs :=
                       (if failures =? 1
                        then minimum (refreshIntervalMs cfg) (maxBackoffMs cfg)
                        else minimum (times (currentBackoffMs (scheduler sys))
                                            (backoffMultiplier cfg))
                                     (maxBackoffMs cfg));
                     onSnapshotUpdate := onSnapshotUpdate (scheduler sys) |};
     builder := b;
     served := served sys |}.

(** A build that never settles leaves the scheduler waiting. *)
Definition pending (b : SnapshotBuilder.State) (sys : System) : System :=
  {| scheduler := scheduler sys; builder := b; served := served sys |}.

(** [performRefresh]; [adaptor] is what the identity provider answers to
    this build. *)
Definition performRefresh (adaptor : Adaptor.t) (sys : System) : System :=
  match SnapshotBuilder.buildSnapshot env adaptor (builder sys) with
  | (Ok snapshot, b) => refreshed snapshot b sys
  | (Throw _, b) => failed b sys
  | (OutOfFuel, b) => pending b sys
  end.

Definition setRunning (r : bool) (t : option Number) (sys : System) : System :=
  {| scheduler := {| currentSnapshot := currentSnapshot (scheduler sys);
                     isRunning := r;
                     timeoutId := t;
                     consecutiveFailures := consecutiveFailures (scheduler sys);
                     currentBackoffMs := currentBackoffMs (scheduler sys);
                     onSnapshotUpdate := onSnapshotUpdate (scheduler sys) |};
     builder := builder sys;
     served := served sys |}.

Definition scheduleNext (sys : System) : System :=
  if negb (isRunning (scheduler sys)) then sys
  else if maxRetries cfg <=? consecutiveFailures (scheduler sys) then
    setRunning false (timeoutId (scheduler sys)) sys
  else
    let delay := if 0 <? consecutiveFailures (scheduler sys)
                 then currentBackoffMs (scheduler sys)
                 else refreshIntervalMs cfg in
    setRunning true (Some delay) sys.

Definition start (adaptor : Adaptor.t) (sys : System) : System :=
  if isRunning (scheduler sys) then sys
  else
    let sys1 :=
      {| scheduler := {| currentSnapshot := currentSnapshot (scheduler sys);
                         isRunning := true;
                         timeoutId := timeoutId (scheduler sys);
                         consecutiveFailures := 0;
                         currentBackoffMs := ofInteger 0;
                         onSnapshotUpdate := onSnapshotUpdate (scheduler sys) |};
         builder := builder sys;
         served := served sys |} in
    scheduleNext (performRefresh adaptor sys1).

Definition stop (sys : System) : System := setRunning false None sys.

(** The body of the timer callback armed by [scheduleNext]. *)
Definition timerFires (adaptor : Adaptor.t) (sys : System) : System :=
  if isRunning (scheduler sys) then scheduleNext (performRefresh adaptor sys) else sys.

Definition forceRefresh (adaptor : Adaptor.t) (sys : System) : System :=
  performRefresh adaptor sys.

(** What can happen to a scheduler; an event that builds carries the
    answer of the identity provider. *)
Inductive event : Type :=
| Start (adaptor : Adaptor.t)
| TimerFires (adaptor : Adaptor.t)
| ForceRefresh (adaptor : Adaptor.t)
| Stop.

Definition step (ev : event) (sys : System) : System :=
  match ev with
  | Start adaptor => start adaptor sys
  | TimerFires adaptor => timerFires adaptor sys
  | ForceRefresh adaptor => forceRefresh adaptor sys
  | Stop => stop sys
  end.

Definition run (evs : list event) (sys : System) : System :=
  fold_left (fun s ev => step ev s) evs sys.

(** The build this event runs from [sys], if it runs one. *)
Definition buildOf (ev : event) (sys : System) : option (outcome Snapshot.t) :=
  match ev with
  | Start adaptor =>
      if isRunning (scheduler sys) then None
      else Some (SnapshotBuilder.buildSnapshot env adaptor (builder sys)).1
  | TimerFires adaptor =>
      if isRunning (scheduler sys)
      then Some (SnapshotBuilder.buildSnapshot env adaptor (builder sys)).1
      else None
  | ForceRefresh adaptor =>
      Some (SnapshotBuilder.buildSnapshot env adaptor (builder sys)).1
  | Stop => None
  end.

(** Every build of the run fails. *)
Fixpoint everyBuildFails (evs : list event) (sys : System) : Prop :=
  match evs with
  | [] => True
  | ev :: rest =>
      (forall snapshot, buildOf ev sys <> Some (Ok snapshot))
      /\ everyBuildFails rest (step ev sys)
  end.

End WithConfig.

End WithNumber.

End RefreshScheduler.

(** ** protocol/ldap.ts *)

Module LDAP.

Inductive LDAPResultCode : Type :=
| Success | OperationsError | ProtocolError | TimeLimitExceeded
| SizeLimitExceeded | CompareFalse | CompareTrue | AuthMethodNotSupported
| StrongerAuthRequired | InvalidCredentials | InsufficientAccessRights
| Busy | Unavailable | UnwillingToPerform | LoopDetect | NamingViolation
| ObjectClassViolation | NotAllowedOnNonLeaf | NotAllowedOnRdn
| EntryAlreadyExists | ObjectClassModsProhibited | AffectsMultipleDsas
| Other.

#[global] Instance LDAPResultCode_eq_dec : EqDecision LDAPResultCode.
Proof. solve_decision. Defined.

(** The numeric value of the enum member. *)
Definition resultCodeValue (c : LDAPResultCode) : Z :=
  match c with
  | Success => 0 | OperationsError => 1 | ProtocolError => 2
  | TimeLimitExceeded => 3 | SizeLimitExceeded => 4 | CompareFalse => 5
  | CompareTrue => 6 | AuthMethodNotSupported => 7 | StrongerAuthRequired => 8
  | InvalidCredentials => 49 | InsufficientAccessRights => 50 | Busy => 51
  | Unavailable => 52 | UnwillingToPerform => 53 | LoopDetect => 54
  | NamingViolation => 64 | ObjectClassViolation => 65
  | NotAllowedOnNonLeaf => 66 | NotAllowedOnRdn => 67
  | EntryAlreadyExists => 68 | ObjectClassModsProhibited => 69
  | AffectsMultipleDsas => 71 | Other => 80
  end.

(** The values of the enum [FilterType]. *)
Module FilterType.
Definition And : Z := 0.
Definition Or : Z := 1.
Definition Not : Z := 2.
Definition EqualityMatch : Z := 3.
Definition Substrings : Z := 4.
Definition GreaterOrEqual : Z := 5.
Definition LessOrEqual : Z := 6.
Definition Present : Z := 7.
Definition ApproxMatch : Z := 8.
Definition ExtensibleMatch : Z := 9.
End FilterType.

Module SubstringFilter.
Record t : Type := {
  initial : option string;
  any : option (list string);
  final : option string;
}.
End SubstringFilter.

(** A filter object, by the value of its [type] field.  [UnknownFilter]
    is an object whose [type] is none of the nine the union lists. *)
Inductive Filter : Type :=
| And (filters : list Filter)
| Or (filters : list Filter)
| Not (filter : Filter)
| EqualityMatch (attributeDesc assertionValue : string)
| Substrings (type_ : string) (substrings : list SubstringFilter.t)
| GreaterOrEqual (attributeDesc assertionValue : string)
| LessOrEqual (attributeDesc assertionValue : string)
| Present (attributeDesc : string)
| ApproxMatch (attributeDesc assertionValue : string)
| UnknownFilter (type : Z).

Inductive Authentication : Type :=
| Simple (password : string)
| Sasl (mechanism : string) (credentials : option (list Z)).

Module BindRequest.
Record t : Type := {
  version : Z;
  name : string;
  authentication : Authentication;
}.
End BindRequest.

Module BindResponse.
Record t : Type := {
  resultCode : LDAPResultCode;
  matchedDN : string;
  diagnosticMessage : string;
}.
End BindResponse.

Module SearchRequest.
Record t : Type := {
  baseObject : string;
  scope : Z;
  derefAliases : Z;
  sizeLimit : Z;
  timeLimit : Z;
  typesOnly : bool;
  filter : Filter;
  attributes : list string;
}.
End SearchRequest.

Module PartialAttribute.
Record t : Type := {
  type : string;
  vals : list string;
}.
End PartialAttribute.

Module SearchResultEntry.
Record t : Type := {
  objectName : string;
  attributes : list PartialAttribute.t;
}.
End SearchResultEntry.

Module SearchResultDone.
Record t : Type := {
  resultCode : LDAPResultCode;
  matchedDN : string;
  diagnosticMessage : string;
}.
End SearchResultDone.

Module LDAPControl.
Record t : Type := {
  controlType : string;
  criticality : option bool;
  controlValue : option (list Z);
}.
End LDAPControl.

(** The protocol operation of a message, by its [type]. *)
Inductive LDAPProtocolOp : Type :=
| OpBindRequest (r : BindRequest.t)
| OpBindResponse (r : BindResponse.t)
| OpUnbindRequest
| OpSearchRequest (r : SearchRequest.t)
| OpSearchResultEntry (e : SearchResultEntry.t)
| OpSearchResultDone (d : SearchResultDone.t)
| OpOther (type : Z).

Module LDAPMessage.
Record t : Type := {
  messageID : Z;
  protocolOp : LDAPProtocolOp;
  controls : option (list LDAPControl.t);
}.
End LDAPMessage.

End LDAP.

(** ** services/bind_authenticator.ts

    The entry point constructs a [BindAuthenticator] and never calls it:
    binds are answered by [LDAPServer.handleBind] below. *)

Module BindAuthenticator.
Import LDAP.

Record BindCredentials : Type := {
  dn : string;
  password : string;
}.

Record BindResult : Type := {
  success : bool;
  resultCode : LDAPResultCode;
  matchedDN : option string;
  diagnosticMessage : string;
}.

Record BindAuthenticatorOptions : Type := {
  opt_allowAnonymousBind : option bool;
  opt_bindDN : option string;
  opt_bindPassword : option string;
}.

Record Config : Type := {
  allowAnonymousBind : bool;
  bindDN : option string;
  bindPassword : option string;
}.

Definition configOf (options : BindAuthenticatorOptions) : Config :=
  {| allowAnonymousBind := default false (opt_allowAnonymousBind options);
     bindDN := opt_bindDN options;
     bindPassword := opt_bindPassword options |}.

Definition authenticate (cfg : Config) (credentials : BindCredentials) : BindResult :=
  if String.eqb (dn credentials) EmptyString
     && String.eqb (password credentials) EmptyString then
    if allowAnonymousBind cfg then
      {| success := true; resultCode := Success; matchedDN := Some EmptyString;
         diagnosticMessage := "Anonymous bind successful" |}
    else
      {| success := false; resultCode := InsufficientAccessRights; matchedDN := None;
         diagnosticMessage := "Anonymous bind not allowed" |}
  else if negb (String.eqb (dn credentials) EmptyString)
          && String.eqb (password credentials) EmptyString then
    {| success := false; resultCode := InvalidCredentials; matchedDN := None;
       diagnosticMessage := "Simple bind requires password" |}
  else if JS.truthyOpt (bindDN cfg) && JS.truthyOpt (bindPassword cfg) then
    if bool_decide (Some (dn credentials) = bindDN cfg)
       && bool_decide (Some (password credentials) = bindPassword cfg) then
      {| success := true; resultCode := Success; matchedDN := Some (dn credentials);
         diagnosticMessage := "Bind successful" |}
    else
      {| success := false; resultCode := InvalidCredentials; matchedDN := None;
         diagnosticMessage := "Invalid credentials" |}
  else
    {| success := false; resultCode := InvalidCredentials; matchedDN := None;
       diagnosticMessage := "Authentication not configured" |}.

End BindAuthenticator.

(** ** The filter parser of the codec

    The BER blocks come from the library asn1js, which is not part of the
    repository: a block is a tag, the bytes it was decoded from, and, when
    constructed, its children.  [fromBER] and the text decoder of the
    runtime are parameters. *)

Module LDAPCodec.
Import LDAP.

Inductive BaseBlock : Type :=
| Primitive (tagClass tagNumber : Z) (valueBeforeDecodeView : list Z)
| Constructed (tagClass tagNumber : Z) (valueBeforeDecodeView : list Z)
              (value : list BaseBlock).

Definition tagNumberOf (b : BaseBlock) : Z :=
  match b with Primitive _ n _ | Constructed _ n _ _ => n end.

Definition viewOf (b : BaseBlock) : list Z :=
  match b with Primitive _ _ v | Constructed _ _ v _ => v end.

Section WithLibrary.

(** [fromBER(bytes).result], [None] when the library finds no block. *)
Variable fromBER : list Z -> option BaseBlock.
(** [new TextDecoder().decode(bytes)]. *)
Variable TextDecoder_decode : list Z -> string.

Definition decodeString (block : option BaseBlock) (msg : string) : outcome string :=
  match block with
  | None => Throw msg
  | Some b =>
      let view := viewOf b in
      match view with
      | 4 :: _ =>
          match fromBER view with
          | Some inner => Ok (TextDecoder_decode (viewOf inner))
          | None => Ok (TextDecoder_decode view)
          end
      | _ => Ok (TextDecoder_decode view)
      end
  end.

(** The loop over the components of a substrings filter: a run of [any]
    components is gathered in one element. *)
Definition pushSubstring (substrings : list SubstringFilter.t) (t : Z) (val : string)
  : list SubstringFilter.t :=
  if t =? 0 then
    substrings ++ [{| SubstringFilter.initial := Some val;
                      SubstringFilter.any := None; SubstringFilter.final := None |}]
  else if t =? 1 then
    match last substrings with
    | Some {| SubstringFilter.initial := i; SubstringFilter.any := Some parts;
              SubstringFilter.final := f |} =>
        take (length substrings - 1) substrings
          ++ [{| SubstringFilter.initial := i;
                 SubstringFilter.any := Some (parts ++ [val]);
                 SubstringFilter.final := f |}]
    | _ => substrings ++ [{| SubstringFilter.initial := None;
                             SubstringFilter.any := Some [val];
                             SubstringFilter.final := None |}]
    end
  else if t =? 2 then
    substrings ++ [{| SubstringFilter.initial := None; SubstringFilter.any := None;
                      SubstringFilter.final := Some val |}]
  else substrings.

Fixpoint substringsLoop (subs : list BaseBlock) (substrings : list SubstringFilter.t)
  : outcome (list SubstringFilter.t) :=
  match subs with
  | [] => Ok substrings
  | s :: rest =>
      val ← decodeString (Some s) "Substring component must be OctetString";
      substringsLoop rest (pushSubstring substrings (tagNumberOf s) val)
  end.

(** [for (const b of seq) filters.push(this.parseFilter(b))]: the first
    component that throws ends the loop. *)
Definition parseEach (parse : BaseBlock -> outcome Filter)
  : list BaseBlock -> outcome (list Filter) :=
  fix each (l : list BaseBlock) : outcome (list Filter) :=
    match l with
    | [] => Ok []
    | b :: l' => f ← parse b; fs ← each l'; Ok (f :: fs)
    end.

Fixpoint parseFilterBlock (block : BaseBlock) : outcome Filter :=
  let tagNumber := tagNumberOf block in
  if tagNumber =? FilterType.And then
    match block with
    | Constructed _ _ _ seq =>
        filters ← parseEach parseFilterBlock seq;
        Ok (And filters)
    | Primitive _ _ _ => Throw "And filter must be constructed"
    end
  else if tagNumber =? FilterType.Or then
    match block with
    | Constructed _ _ _ seq =>
        filters ← parseEach parseFilterBlock seq;
        Ok (Or filters)
    | Primitive _ _ _ => Throw "Or filter must be constructed"
    end
  else if tagNumber =? FilterType.Not then
    match block with
    | Constructed _ _ _ (first :: _) =>
        f ← parseFilterBlock first; Ok (Not f)
    | Constructed _ _ _ [] => Throw "Invalid Not filter"
    | Primitive _ _ _ => Throw "Not filter must be constructed"
    end
  else if tagNumber =? FilterType.EqualityMatch then
    match block with
    | Constructed _ _ _ seq =>
        attributeDesc ← decodeString (seq !! 0%nat) "Equality attribute must be OctetString";
        assertionValue ← decodeString (seq !! 1%nat) "Equality value must be OctetString";
        Ok (EqualityMatch attributeDesc assertionValue)
    | Primitive _ _ _ => Throw "Equality filter must be constructed"
    end
  else if tagNumber =? FilterType.Substrings then
    match block with
    | Constructed _ _ _ seq =>
        type_ ← decodeString (seq !! 0%nat) "Substrings type must be OctetString";
        match seq !! 1%nat with
        | Some (Constructed _ _ _ subsConstructed) =>
            substrings ← substringsLoop subsConstructed [];
            Ok (Substrings type_ substrings)
        | _ => Throw "Substrings list must be constructed"
        end
    | Primitive _ _ _ => Throw "Substrings filter must be constructed"
    end
  else if tagNumber =? FilterType.Present then
    attributeDesc ← decodeString (Some block) "Present attribute must be OctetString";
    Ok (Present attributeDesc)
  else
    match decodeString (Some block) "fallback" with
    | Ok guess =>
        if JS.truthy guess then Ok (Present guess)
        else Throw ("Unsupported or unrecognized filter tag "
                    +:+ JSString.ofInt tagNumber)
    | _ => Throw ("Unsupported or unrecognized filter tag "
                  +:+ JSString.ofInt tagNumber)
    end.

Definition parseFilter (block : option BaseBlock) : outcome Filter :=
  match block with
  | None => Throw "Missing filter block"
  | Some b => parseFilterBlock b
  end.

(** The filter of a decoded SearchRequest: [decode] catches the error of
    [parseFilter] and puts the presence filter on objectClass in its place. *)
Definition decodeSearchFilter (filterBlock : option BaseBlock) : Filter :=
  match parseFilter filterBlock with
  | Ok f => f
  | _ => Present "objectClass"
  end.

(** The tags [parseFilter] has a case for. *)
Definition recognized (tagNumber : Z) : bool :=
  (tagNumber =? FilterType.And) || (tagNumber =? FilterType.Or)
  || (tagNumber =? FilterType.Not) || (tagNumber =? FilterType.EqualityMatch)
  || (tagNumber =? FilterType.Substrings) || (tagNumber =? FilterType.Present).

End WithLibrary.

(** The component of a filter block that a path of positions leads to:
    below an And or an Or block the path names a component, below a Not
    block it names the first. *)
Fixpoint blockAt (path : list nat) (block : BaseBlock) : option BaseBlock :=
  match path with
  | [] => Some block
  | k :: path' =>
      match block with
      | Constructed _ tagNumber _ components =>
          if (tagNumber =? FilterType.And) || (tagNumber =? FilterType.Or)
          then components !! k ≫= blockAt path'
          else if tagNumber =? FilterType.Not
          then match k with
               | O => head components ≫= blockAt path'
               | S _ => None
               end
          else None
      | Primitive _ _ _ => None
      end
  end.

(** The same place in a parsed filter. *)
Fixpoint filterAt (path : list nat) (f : Filter) : option Filter :=
  match path with
  | [] => Some f
  | k :: path' =>
      match f with
      | And filters | Or filters => filters !! k ≫= filterAt path'
      | Not filter =>
          match k with
          | O => filterAt path' filter
          | S _ => None
          end
      | _ => None
      end
  end.

(** [encodePagedControlValue(0, new Uint8Array())]: the BER bytes of
    SEQUENCE { INTEGER 0, OCTET STRING of length 0 }. *)
Definition encodePagedControlValue_0_empty : list Z := [0x30; 0x05; 0x02; 0x01; 0x00; 0x04; 0x00].

End LDAPCodec.

(** ** services/ldap_server.ts *)

Module LDAPServer.
Import LDAP.

Record LDAPServerOptions : Type := {
  opt_port : option Z;
  opt_bindDN : option string;
  opt_bindPassword : option string;
  opt_baseDN : string;
  opt_sizeLimit : option Z;
  opt_allowAnonymousBind : option bool;
}.

(** The read-only fields of the server. *)
Record Config : Type := {
  port : Z;
  bindDN : option string;
  bindPassword : option string;
  baseDN : string;
  sizeLimit : Z;
  allowAnonymousBind : bool;
}.

Definition configOf (opts : LDAPServerOptions) : Config :=
  {| port := default 389 (opt_port opts);
     bindDN := opt_bindDN opts;
     bindPassword := opt_bindPassword opts;
     baseDN := opt_baseDN opts;
     sizeLimit := default 1000 (opt_sizeLimit opts);
     allowAnonymousBind := default false (opt_allowAnonymousBind opts) |}.

(** The value of an attribute in an attribute record: a string or an array
    of strings.  The record keeps its keys in insertion order. *)
Inductive AttrValue : Type :=
| One (s : string)
| Many (l : list string).

Abbreviation Attrs := (list (string * AttrValue)).

(** [Array.isArray(value) ? value.map(String) : [String(value)]]. *)
Definition valuesOf (v : AttrValue) : list string :=
  match v with One s => [s] | Many l => l end.

(** [attrs.dn as string]. *)
Definition dnOf (attrs : Attrs) : string :=
  match list_find (fun kv => kv.1 = "dn") attrs with
  | Some (_, (_, One s)) => s
  | _ => EmptyString
  end.

Section WithConfig.

Variable cfg : Config.

(** *** Bind *)

Definition handleBind (request : BindRequest.t) : BindResponse.t :=
  if allowAnonymousBind cfg
     || (negb (JS.truthyOpt (bindDN cfg)) && negb (JS.truthyOpt (bindPassword cfg)))
  then
    {| BindResponse.resultCode := Success;
       BindResponse.matchedDN := EmptyString;
       BindResponse.diagnosticMessage := "Anonymous bind successful" |}
  else
    match BindRequest.authentication request with
    | Simple password =>
        let valid := bool_decide (Some (BindRequest.name request) = bindDN cfg)
                     && bool_decide (Some password = bindPassword cfg) in
        {| BindResponse.resultCode := if valid then Success else InvalidCredentials;
           BindResponse.matchedDN := if valid then BindRequest.name request else EmptyString;
           BindResponse.diagnosticMessage :=
             if valid then "Bind successful" else "Invalid credentials" |}
    | Sasl _ _ =>
        {| BindResponse.resultCode := AuthMethodNotSupported;
           BindResponse.matchedDN := EmptyString;
           BindResponse.diagnosticMessage := "Only simple authentication supported" |}
    end.

(** *** Normalisation of the request *)

(** The local [normalizeString] of [normalizeSearchRequest] and of
    [normalizeFilter]. *)
Definition normalizeString (raw : string) : string :=
  if negb (JS.truthy raw) then EmptyString
  else if bool_decide (JSString.charCodeAt 0 raw = Some 4)
          && (2 <? String.length raw)%nat
  then JSString.orElse (JSString.trim (JSString.sliceFrom 2 raw)) (JSString.trim raw)
  else JSString.trim raw.

Definition normalizeSubstring (s : SubstringFilter.t) : SubstringFilter.t :=
  {| SubstringFilter.initial :=
       if JS.truthyOpt (SubstringFilter.initial s)
       then normalizeString <$> SubstringFilter.initial s else None;
     SubstringFilter.any := map normalizeString <$> SubstringFilter.any s;
     SubstringFilter.final :=
       if JS.truthyOpt (SubstringFilter.final s)
       then normalizeString <$> SubstringFilter.final s else None |}.

Fixpoint normalizeFilter (f : Filter) : Filter :=
  match f with
  | And filters => And (map normalizeFilter filters)
  | Or filters => Or (map normalizeFilter filters)
  | Not g => Not (normalizeFilter g)
  | EqualityMatch a v => EqualityMatch (normalizeString a) (normalizeString v)
  | Substrings t subs => Substrings (normalizeString t) (normalizeSubstring <$> subs)
  | Present a => Present (normalizeString a)
  | GreaterOrEqual a v => GreaterOrEqual (normalizeString a) (normalizeString v)
  | LessOrEqual a v => LessOrEqual (normalizeString a) (normalizeString v)
  | ApproxMatch a v => ApproxMatch (normalizeString a) (normalizeString v)
  | UnknownFilter t => UnknownFilter t
  end.

Definition normalizeSearchRequest (request : SearchRequest.t) : SearchRequest.t :=
  {| SearchRequest.baseObject := normalizeString (SearchRequest.baseObject request);
     SearchRequest.scope := SearchRequest.scope request;
     SearchRequest.derefAliases := SearchRequest.derefAliases request;
     SearchRequest.sizeLimit := SearchRequest.sizeLimit request;
     SearchRequest.timeLimit := SearchRequest.timeLimit request;
     SearchRequest.typesOnly := SearchRequest.typesOnly request;
     SearchRequest.filter := normalizeFilter (SearchRequest.filter request);
     SearchRequest.attributes :=
       filter (fun a => JS.truthy a = true)
              (normalizeString <$> SearchRequest.attributes request) |}.

(** *** The search context *)

Record SearchContext : Type := {
  request : SearchRequest.t;
  users : list User.t;
  groups : list Group.t;
  userDNBase : string;
  groupDNBase : string;
  ctxBaseDN : string;
}.

Definition createSearchContext (snapshot : option Snapshot.t) (req : SearchRequest.t)
  : SearchContext :=
  {| request := req;
     users := from_option Snapshot.users [] snapshot;
     groups := from_option Snapshot.groups [] snapshot;
     userDNBase := "ou=users," +:+ baseDN cfg;
     groupDNBase := "ou=groups," +:+ baseDN cfg;
     ctxBaseDN := baseDN cfg |}.

Definition normalizeDN (dn : string) : string :=
  JSString.removeSpaces (JSString.toLowerCase dn).

Definition isBaseObjectInScope (base : string) : bool :=
  if negb (JS.truthy base) then true
  else
    let normalizedBase := normalizeDN base in
    let normalizedServerBase := normalizeDN (baseDN cfg) in
    String.eqb normalizedBase normalizedServerBase
    || JSString.endsWith normalizedBase ("," +:+ normalizedServerBase).

Definition isInSearchScope (entryDN base : string) (scope : Z) : bool :=
  let normalizedEntry := normalizeDN entryDN in
  let normalizedBase := normalizeDN base in
  if scope =? 0 then String.eqb normalizedEntry normalizedBase
  else if scope =? 1 then
    if String.eqb normalizedEntry normalizedBase then false
    else
      let entryParts := JSString.split "," normalizedEntry in
      let parentDN := JSString.join "," (drop 1 entryParts) in
      String.eqb parentDN normalizedBase
  else if scope =? 2 then
    String.eqb normalizedEntry normalizedBase
    || JSString.endsWith normalizedEntry ("," +:+ normalizedBase)
  else false.

(** *** The filter evaluator *)

Definition isWordChar (a : ascii) : bool :=
  let c := JSString.code a in
  ((48 <=? c) && (c <=? 57)) || ((65 <=? c) && (c <=? 90))
  || ((97 <=? c) && (c <=? 122)) || (c =? 95).

Definition isPrintable (a : ascii) : bool :=
  let c := JSString.code a in (32 <=? c) && (c <=? 126).

Definition normalizeStringValue (raw : string) : string :=
  if negb (JS.truthy raw) then EmptyString
  else
    let len := Z.of_nat (String.length raw) in
    let firstByte := default 0 (JSString.charCodeAt 0 raw) in
    let cleaned0 :=
      if (firstByte =? 4) || (firstByte =? 12) then
        if 2 <? len then JSString.sliceFrom 2 raw else raw
      else if (firstByte <=? 0x1F) && (2 <? len) then
        let lengthByte := default 0 (JSString.charCodeAt 1 raw) in
        if (0 <? lengthByte) && (lengthByte <=? len - 2)
        then JSString.sliceFrom 2 raw else raw
      else raw in
    let cleaned1 :=
      JSString.ofChars (filter (fun a => isPrintable a = true) (JSString.chars cleaned0)) in
    let cleaned2 :=
      if (String.length cleaned1 =? 0)%nat
         || existsb (fun a => JSString.code a <? 32) (JSString.chars cleaned1)
      then JSString.ofChars (filter (fun a => isWordChar a = true) (JSString.chars raw))
      else cleaned1 in
    JSString.orElse (JSString.trim cleaned2) (JSString.trim raw).

(** The local [getAttrValues] of [matchesFilter]. *)
Definition getAttrValues (attrs : Attrs) (name : string) : list string :=
  let normalizedName := JSString.toLowerCase (normalizeStringValue name) in
  match list_find (fun kv => JSString.toLowerCase kv.1 = normalizedName) attrs with
  | Some (_, (_, value)) => valuesOf value
  | None => []
  end.

Definition compareString (a b : string) : bool :=
  String.eqb (JSString.toLowerCase a) (JSString.toLowerCase b).

(** One element of the [substrings] array against the joined value. *)
Definition matchesSubstring (combinedValue : string) (s : SubstringFilter.t) : bool :=
  (if JS.truthyOpt (SubstringFilter.initial s)
   then JSString.startsWith combinedValue
          (JSString.toLowerCase (default EmptyString (SubstringFilter.initial s)))
   else true)
  && (if JS.truthyOpt (SubstringFilter.final s)
      then JSString.endsWith combinedValue
             (JSString.toLowerCase (default EmptyString (SubstringFilter.final s)))
      else true)
  && forallb (fun anyPart => JSString.includes combinedValue (JSString.toLowerCase anyPart))
             (default [] (SubstringFilter.any s)).

Fixpoint matchesFilter (f : Filter) (attrs : Attrs) : bool :=
  match f with
  | And filters => forallb (fun g => matchesFilter g attrs) filters
  | Or filters => existsb (fun g => matchesFilter g attrs) filters
  | Not g => negb (matchesFilter g attrs)
  | EqualityMatch attributeDesc assertionValue =>
      let normalizedAttr := normalizeStringValue attributeDesc in
      let normalizedValue := normalizeStringValue assertionValue in
      let values := getAttrValues attrs normalizedAttr in
      existsb (fun v => String.eqb (JSString.toLowerCase (normalizeStringValue v))
                                   (JSString.toLowerCase normalizedValue)) values
  | Present attributeDesc =>
      let normalizedAttr := normalizeStringValue attributeDesc in
      let values := getAttrValues attrs normalizedAttr in
      (0 <? length values)%nat && existsb (fun v => negb (String.eqb v EmptyString)) values
  | Substrings type_ substrings =>
      let values := getAttrValues attrs type_ in
      let combinedValue := JSString.toLowerCase (JSString.join " " values) in
      forallb (matchesSubstring combinedValue) substrings
  | GreaterOrEqual attributeDesc assertionValue =>
      existsb (fun v => String.leb assertionValue v) (getAttrValues attrs attributeDesc)
  | LessOrEqual attributeDesc assertionValue =>
      existsb (fun v => String.leb v assertionValue) (getAttrValues attrs attributeDesc)
  | ApproxMatch attributeDesc assertionValue =>
      existsb (fun v => compareString v assertionValue) (getAttrValues attrs attributeDesc)
  | UnknownFilter _ => false
  end.

(** *** Entries *)

Definition buildAttributeList (attrs : Attrs) (requestedAttrs : list string)
    (typesOnly : bool) : list PartialAttribute.t :=
  let wanted := JSString.toLowerCase <$> requestedAttrs in
  omap (fun kv : string * AttrValue =>
          let '(attrName, attrValue) := kv in
          if String.eqb attrName "dn" then None
          else if (0 <? length requestedAttrs)%nat
                  && negb (bool_decide (JSString.toLowerCase attrName ∈ wanted))
          then None
          else
            let stringValues :=
              filter (fun v => v <> EmptyString) (valuesOf attrValue) in
            if (0 <? length stringValues)%nat
            then Some {| PartialAttribute.type := attrName;
                         PartialAttribute.vals :=
                           if typesOnly then [] else stringValues |}
            else None)
       attrs.

Definition findGroupById (gs : list Group.t) (gid : string) : option Group.t :=
  snd <$> list_find (fun g => Group.id g = gid) gs.

Definition buildUserAttributes (user : User.t) (ctx : SearchContext) : Attrs :=
  let primaryGroup := findGroupById (groups ctx) (User.primaryGroupId user) in
  let gidNumber :=
    match primaryGroup with
    | Some g => JSString.ofInt (Group.posixGid g)
    | None => "10000"
    end in
  let shown := JSString.orElse (User.displayName user) (User.username user) in
  let parts := JSString.words shown in
  let givenName :=
    match parts with
    | first :: _ => first
    | [] => JSString.orElse (User.username user) "unknown"
    end in
  let sn :=
    if (1 <? length parts)%nat then JSString.join " " (drop 1 parts) else givenName in
  let dn := "uid=" +:+ User.username user +:+ "," +:+ userDNBase ctx in
  let memberOfDNs :=
    (fun g => "cn=" +:+ Group.name g +:+ "," +:+ groupDNBase ctx)
      <$> omap (findGroupById (groups ctx)) (User.memberGroupIds user) in
  [ ("dn", One dn);
    ("objectClass",
     Many ["top"; "person"; "organizationalPerson"; "inetOrgPerson"; "posixAccount"]);
    ("uid", One (User.username user));
    ("cn", One shown);
    ("sn", One sn);
    ("givenName", One givenName);
    ("displayName", One shown);
    ("mail", One (default EmptyString (User.email user)));
    ("userPrincipalName", One (default EmptyString (User.email user)));
    ("uidNumber", One (JSString.ofInt (User.posixUid user)));
    ("gidNumber", One gidNumber);
    ("homeDirectory", One ("/home/" +:+ User.username user));
    ("loginShell", One "/bin/bash");
    ("memberOf", Many memberOfDNs);
    ("userAccountControl", One "512");
    ("description", One ("User account for " +:+ shown)) ].

Definition isMemberOf (group : Group.t) (u : User.t) : bool :=
  bool_decide (Group.id group ∈ User.memberGroupIds u)
  || String.eqb (User.primaryGroupId u) (Group.id group).

Definition buildGroupAttributes (group : Group.t) (ctx : SearchContext) : Attrs :=
  let dn := "cn=" +:+ Group.name group +:+ "," +:+ groupDNBase ctx in
  let members := filter (fun u => isMemberOf group u = true) (users ctx) in
  [ ("dn", One dn);
    ("objectClass", Many ["top"; "group"; "posixGroup"]);
    ("cn", One (Group.name group));
    ("gidNumber", One (JSString.ofInt (Group.posixGid group)));
    ("description",
     One (if JS.truthyOpt (Group.description group)
          then default EmptyString (Group.description group)
          else "Group " +:+ Group.name group));
    ("member",
     Many ((fun u => "uid=" +:+ User.username u +:+ ",ou=users," +:+ ctxBaseDN ctx)
             <$> members));
    ("memberUid", Many (User.username <$> members)) ].

Definition createUserEntry (attrs : Attrs) (requestedAttrs : list string)
    (typesOnly : bool) : SearchResultEntry.t :=
  {| SearchResultEntry.objectName := dnOf attrs;
     SearchResultEntry.attributes := buildAttributeList attrs requestedAttrs typesOnly |}.

Definition createGroupEntry (attrs : Attrs) (requestedAttrs : list string)
    (typesOnly : bool) : SearchResultEntry.t :=
  {| SearchResultEntry.objectName := dnOf attrs;
     SearchResultEntry.attributes := buildAttributeList attrs requestedAttrs typesOnly |}.

Definition attribute (type : string) (vals : list string) : PartialAttribute.t :=
  {| PartialAttribute.type := type; PartialAttribute.vals := vals |}.

Definition createRootDSEEntry (ctx : SearchContext) : SearchResultEntry.t :=
  {| SearchResultEntry.objectName := EmptyString;
     SearchResultEntry.attributes :=
       [ attribute "objectClass" ["top"; "rootDSE"];
         attribute "namingContexts" [ctxBaseDN ctx];
         attribute "supportedLDAPVersion" ["3"];
         attribute "supportedControl" ["1.2.840.113556.1.4.319"];
         attribute "supportedExtension" [];
         attribute "vendorName" ["LDAPtoID"];
         attribute "vendorVersion" ["1.0.0"] ] |}.

(** [attrs[key] = value] on a record that keeps insertion order. *)
Fixpoint setAttr (key : string) (value : AttrValue) (attrs : Attrs) : Attrs :=
  match attrs with
  | [] => [(key, value)]
  | (k, v) :: rest =>
      if String.eqb k key then (k, value) :: rest else (k, v) :: setAttr key value rest
  end.

Definition buildAttributesMapFromEntry (entry : SearchResultEntry.t) : Attrs :=
  fold_left (fun attrs attr =>
               setAttr (PartialAttribute.type attr) (Many (PartialAttribute.vals attr)) attrs)
            (SearchResultEntry.attributes entry) [].

Definition ouEntry (ou description : string) (ctx : SearchContext)
  : list SearchResultEntry.t :=
  let req := request ctx in
  let attrs : Attrs :=
    [ ("dn", One ("ou=" +:+ ou +:+ "," +:+ ctxBaseDN ctx));
      ("objectClass", Many ["top"; "organizationalUnit"]);
      ("ou", One ou);
      ("description", One description) ] in
  if isInSearchScope (dnOf attrs) (SearchRequest.baseObject req) (SearchRequest.scope req)
     && matchesFilter (SearchRequest.filter req) attrs
  then [ {| SearchResultEntry.objectName := dnOf attrs;
            SearchResultEntry.attributes :=
              buildAttributeList attrs (SearchRequest.attributes req)
                                 (SearchRequest.typesOnly req) |} ]
  else [].

Definition createOUEntries (ctx : SearchContext) : list SearchResultEntry.t :=
  ouEntry "users" "Users organizational unit" ctx
  ++ ouEntry "groups" "Groups organizational unit" ctx.

(** *** executeSearch: the loops push onto [entries]. *)

(** The test of the user loop, and the entry it pushes. *)
Definition matchingUser (ctx : SearchContext) (user : User.t) : bool :=
  let req := request ctx in
  let userAttrs := buildUserAttributes user ctx in
  isInSearchScope (dnOf userAttrs) (SearchRequest.baseObject req) (SearchRequest.scope req)
  && matchesFilter (SearchRequest.filter req) userAttrs.

Definition userEntryOf (ctx : SearchContext) (user : User.t) : SearchResultEntry.t :=
  createUserEntry (buildUserAttributes user ctx)
                  (SearchRequest.attributes (request ctx))
                  (SearchRequest.typesOnly (request ctx)).

(** The test of the group loop, and the entry it pushes. *)
Definition matchingGroup (ctx : SearchContext) (group : Group.t) : bool :=
  let req := request ctx in
  let groupAttrs := buildGroupAttributes group ctx in
  isInSearchScope (dnOf groupAttrs) (SearchRequest.baseObject req) (SearchRequest.scope req)
  && matchesFilter (SearchRequest.filter req) groupAttrs.

Definition groupEntryOf (ctx : SearchContext) (group : Group.t) : SearchResultEntry.t :=
  createGroupEntry (buildGroupAttributes group ctx)
                   (SearchRequest.attributes (request ctx))
                   (SearchRequest.typesOnly (request ctx)).

Definition pushUser (ctx : SearchContext) (entries : list SearchResultEntry.t)
    (user : User.t) : list SearchResultEntry.t :=
  let req := request ctx in
  let userAttrs := buildUserAttributes user ctx in
  if isInSearchScope (dnOf userAttrs) (SearchRequest.baseObject req) (SearchRequest.scope req)
     && matchesFilter (SearchRequest.filter req) userAttrs
  then entries ++ [createUserEntry userAttrs (SearchRequest.attributes req)
                                   (SearchRequest.typesOnly req)]
  else entries.

Definition pushGroup (ctx : SearchContext) (entries : list SearchResultEntry.t)
    (group : Group.t) : list SearchResultEntry.t :=
  let req := request ctx in
  let groupAttrs := buildGroupAttributes group ctx in
  if isInSearchScope (dnOf groupAttrs) (SearchRequest.baseObject req) (SearchRequest.scope req)
     && matchesFilter (SearchRequest.filter req) groupAttrs
  then entries ++ [createGroupEntry groupAttrs (SearchRequest.attributes req)
                                    (SearchRequest.typesOnly req)]
  else entries.

Definition executeSearch (ctx : SearchContext) : list SearchResultEntry.t :=
  let req := request ctx in
  if String.eqb (SearchRequest.baseObject req) EmptyString
     && (SearchRequest.scope req =? 0) then
    let rootEntry := createRootDSEEntry ctx in
    let rootAttrs := buildAttributesMapFromEntry rootEntry in
    if matchesFilter (SearchRequest.filter req) rootAttrs then [rootEntry] else []
  else
    let entries1 := fold_left (pushUser ctx) (users ctx) [] in
    let entries2 := fold_left (pushGroup ctx) (groups ctx) entries1 in
    if negb (SearchRequest.scope req =? 0)
    then entries2 ++ createOUEntries ctx else entries2.

Definition applyLimits (entries : list SearchResultEntry.t) (clientSizeLimit : Z)
  : list SearchResultEntry.t :=
  let effectiveLimit :=
    Z.min (sizeLimit cfg)
          (if 0 <? clientSizeLimit then clientSizeLimit else sizeLimit cfg) in
  JSString.slice0 entries effectiveLimit.

(** *** handleSearch: the messages written to the connection, in order *)

Definition pagedResultsOID : string := "1.2.840.113556.1.4.319".

Definition done (messageID : Z) (code : LDAPResultCode) (message : string)
    (controls : option (list LDAPControl.t)) : LDAPMessage.t :=
  {| LDAPMessage.messageID := messageID;
     LDAPMessage.protocolOp := OpSearchResultDone
       {| SearchResultDone.resultCode := code;
          SearchResultDone.matchedDN := EmptyString;
          SearchResultDone.diagnosticMessage := message |};
     LDAPMessage.controls := controls |}.

(** [sendSearchDone]: the paged-results control of the request is answered
    with size 0 and an empty cookie. *)
Definition searchDone (messageID : Z) (controls : option (list LDAPControl.t))
    (code : LDAPResultCode) (message : string) : LDAPMessage.t :=
  done messageID code message
    match list_find (fun c => LDAPControl.controlType c = pagedResultsOID)
                    (default [] controls) with
    | Some (_, c) =>
        Some [ {| LDAPControl.controlType := LDAPControl.controlType c;
                  LDAPControl.criticality := Some false;
                  LDAPControl.controlValue :=
                    Some LDAPCodec.encodePagedControlValue_0_empty |} ]
    | None => None
    end.

(** [sendSearchResults]. *)
Definition searchResults (messageID : Z) (entries : list SearchResultEntry.t)
  : list LDAPMessage.t :=
  (fun entry => {| LDAPMessage.messageID := messageID;
                   LDAPMessage.protocolOp := OpSearchResultEntry entry;
                   LDAPMessage.controls := None |}) <$> entries.

Definition handleSearch (currentSnapshot : option Snapshot.t) (messageID : Z)
    (req : SearchRequest.t) (controls : option (list LDAPControl.t))
  : list LDAPMessage.t :=
  match currentSnapshot with
  | None => [ done messageID Unavailable "No directory snapshot available" None ]
  | Some _ =>
      let normalizedRequest := normalizeSearchRequest req in
      let searchContext := createSearchContext currentSnapshot normalizedRequest in
      if negb (isBaseObjectInScope (SearchRequest.baseObject normalizedRequest)) then
        [ searchDone messageID (Some []) Success "Search completed" ]
      else
        let entries := executeSearch searchContext in
        let limitedEntries :=
          applyLimits entries (SearchRequest.sizeLimit normalizedRequest) in
        let exceeded := sizeLimit cfg <=? Z.of_nat (length entries) in
        searchResults messageID limitedEntries
        ++ [ searchDone messageID controls
               (if exceeded then SizeLimitExceeded else Success)
               (if exceeded then "Size limit exceeded" else "Search completed") ]
  end.

(** *** One decoded message on a connection

    The result is the messages written, the new value of [authenticated],
    and whether the connection is closed. *)
Definition handleMessage (currentSnapshot : option Snapshot.t) (authenticated : bool)
    (message : LDAPMessage.t) : list LDAPMessage.t * bool * bool :=
  let messageID := LDAPMessage.messageID message in
  match LDAPMessage.protocolOp message with
  | OpBindRequest r =>
      let bindResult := handleBind r in
      ([ {| LDAPMessage.messageID := messageID;
            LDAPMessage.protocolOp := OpBindResponse bindResult;
            LDAPMessage.controls := None |} ],
       bool_decide (BindResponse.resultCode bindResult = Success), false)
  | OpSearchRequest r =>
      if negb authenticated && JS.truthyOpt (bindDN cfg) then
        ([ done messageID InsufficientAccessRights "Authentication required" None ],
         authenticated, false)
      else (handleSearch currentSnapshot messageID r (LDAPMessage.controls message),
            authenticated, false)
  | OpUnbindRequest => ([], authenticated, true)
  | _ =>
      ([ done messageID ProtocolError "Unsupported operation" None ],
       authenticated, false)
  end.

End WithConfig.

(** The result code of the last message of a response, when that message
    is a SearchResultDone. *)
Definition doneCode (messages : list LDAPMessage.t) : option LDAPResultCode :=
  match LDAPMessage.protocolOp <$> last messages with
  | Some (OpSearchResultDone d) => Some (SearchResultDone.resultCode d)
  | _ => None
  end.

(** The entries of a response, in the order written. *)
Definition entriesOf (messages : list LDAPMessage.t) : list SearchResultEntry.t :=
  omap (fun m => match LDAPMessage.protocolOp m with
                 | OpSearchResultEntry e => Some e
                 | _ => None
                 end) messages.

End LDAPServer.

(** Concrete allocator inputs used in examples. *)

Module AllocatorExamples.
Import IdAllocator.

(** [new IdAllocator({ salt: "test_salt", floor: 10000 })], as in the
    repository's integration test. *)
Definition testOptions : IdAllocatorOptions :=
  {| opt_salt := "test_salt"; opt_retryLimit := None; opt_floor := Some 10000;
     opt_ceiling := None; opt_sequentialStart := None |}.

Definition testConfig : Config := configOf testOptions.
Definition testState : InternalState := initialState testOptions.

(** The one-character key U+00E9 (e with acute accent): one code unit, two
    UTF-8 bytes. *)
Definition accentedKey : string := String (ascii_of_nat 233) EmptyString.

Definition resultId {S} (r : outcome (AllocationResult * S)) : option Z :=
  match r with Ok (res, _) => Some (id res) | _ => None end.

Definition returnedId {S} (r : outcome AllocationResult * S) : option Z :=
  match r with (Ok res, _) => Some (id res) | _ => None end.

End AllocatorExamples.

(** Concrete builder inputs used in examples. *)

Module BuilderExamples.
Import SnapshotBuilder.

(** The allocators as the command-line entry point creates them. *)
Definition uidOptions : IdAllocator.IdAllocatorOptions :=
  {| IdAllocator.opt_salt := "uid_https://idp.example.com";
     IdAllocator.opt_retryLimit := None; IdAllocator.opt_floor := Some 10000;
     IdAllocator.opt_ceiling := None; IdAllocator.opt_sequentialStart := None |}.

Definition gidOptions : IdAllocator.IdAllocatorOptions :=
  {| IdAllocator.opt_salt := "gid_https://idp.example.com";
     IdAllocator.opt_retryLimit := None; IdAllocator.opt_floor := Some 10000;
     IdAllocator.opt_ceiling := None; IdAllocator.opt_sequentialStart := None |}.

Definition fixedClock : nat -> string := fun _ => "2025-09-16T00:00:00.000Z".

Definition tickingClock : nat -> string :=
  fun k => "2025-09-16T00:00:" +:+ JS.ofNat (Z.of_nat k) +:+ ".000Z".

Definition envWith (clk : nat -> string) : Env :=
  envOf (IdAllocator.configOf uidOptions) (IdAllocator.configOf gidOptions)
        {| opt_enabledFeatures := []; opt_maxGroupMembers := None |} clk.

Definition env0 : Env := envWith fixedClock.

Definition freshState : State :=
  {| uidAllocator := IdAllocator.initialState uidOptions;
     gidAllocator := IdAllocator.initialState gidOptions;
     sequenceCounter := 0;
     clockReads := 0 |}.

Definition alice : RawUser.t :=
  {| RawUser.id := "a-1"; RawUser.username := "alice";
     RawUser.email := Some "alice@example.com"; RawUser.enabled := true;
     RawUser.displayName := Some "Alice Liddell" |}.

Definition bob : RawUser.t :=
  {| RawUser.id := "b-2"; RawUser.username := "bob";
     RawUser.email := None; RawUser.enabled := true;
     RawUser.displayName := None |}.

(** A group with 5001 candidate members. *)
Definition bigGroup : RawGroup.t :=
  {| RawGroup.id := "g-1"; RawGroup.name := "staff";
     RawGroup.description := None;
     RawGroup.members :=
       Some ((fun n => "m-" +:+ JS.ofNat (Z.of_nat n)) <$> seq 0 (Z.to_nat 5001)) |}.

Definition adaptor0 : Adaptor.t :=
  {| Adaptor.fetchUsers := Ok [bob; alice];
     Adaptor.fetchGroups := Ok [bigGroup] |}.

Definition staff : RawGroup.t :=
  {| RawGroup.id := "g-2"; RawGroup.name := "staff";
     RawGroup.description := Some "Everyone";
     RawGroup.members := Some ["a-1"; "b-2"] |}.

Definition admins : RawGroup.t :=
  {| RawGroup.id := "g-3"; RawGroup.name := "admins";
     RawGroup.description := None;
     RawGroup.members := Some ["a-1"] |}.

(** Two users, listed bob first, and two small groups. *)
Definition smallAdaptor : Adaptor.t :=
  {| Adaptor.fetchUsers := Ok [bob; alice];
     Adaptor.fetchGroups := Ok [staff; admins] |}.

Definition smallSnapshot : Snapshot.t :=
  match (buildSnapshot env0 smallAdaptor freshState).1 with
  | Ok snapshot => snapshot
  | _ => {| Snapshot.users := []; Snapshot.groups := [];
            Snapshot.generatedAt := EmptyString;
            Snapshot.sequence := 0; Snapshot.featureFlags := [] |}
  end.

(** An identity provider with no users and no groups. *)
Definition emptyAdaptor : Adaptor.t :=
  {| Adaptor.fetchUsers := Ok []; Adaptor.fetchGroups := Ok [] |}.

Definition emptySnapshot : Snapshot.t :=
  {| Snapshot.users := []; Snapshot.groups := []; Snapshot.generatedAt := EmptyString;
     Snapshot.sequence := 0; Snapshot.featureFlags := [] |}.

Definition snapshotOf (r : outcome Snapshot.t * State) : Snapshot.t :=
  match r.1 with Ok snapshot => snapshot | _ => emptySnapshot end.

Definition built0 : outcome Snapshot.t * State := buildSnapshot env0 adaptor0 freshState.

(** Two builds, one after the other, on the same builder. *)
Definition firstBuild : outcome Snapshot.t * State :=
  buildSnapshot env0 emptyAdaptor freshState.
Definition secondBuild : outcome Snapshot.t * State :=
  buildSnapshot env0 emptyAdaptor firstBuild.2.

(** A later state of another builder over allocators in the same state:
    its counter and its clock have moved on. *)
Definition laterState : State :=
  {| uidAllocator := IdAllocator.initialState uidOptions;
     gidAllocator := IdAllocator.initialState gidOptions;
     sequenceCounter := 7;
     clockReads := 40 |}.





End BuilderExamples.

(** Concrete scheduler inputs used in examples. *)

Module SchedulerExamples.
Import RefreshScheduler.

(** The identity provider is down. *)
Definition failingAdaptor : Adaptor.t :=
  {| Adaptor.fetchUsers := Throw "Keycloak API error: 503";
     Adaptor.fetchGroups := Ok [] |}.

(** A scheduler that gives up after two failures in a row. *)
Definition cfg0 : Config (Number := Z) :=
  configOf {| opt_refreshIntervalMs := 300000; opt_maxBackoffMs := None;
              opt_backoffMultiplier := None; opt_maxRetries := Some 2 |}.

(** The system after the callback was registered and a first refresh
    succeeded. *)
Definition serving : System (Number := Z) :=
  start cfg0 BuilderExamples.env0 BuilderExamples.smallAdaptor
    (setSnapshotUpdateCallback (initial BuilderExamples.freshState)).

(** Five failures in a row: three timer refreshes (the scheduler stops
    after the second) and two forced ones. *)
Definition outage : list event :=
  [TimerFires failingAdaptor; TimerFires failingAdaptor; TimerFires failingAdaptor;
   ForceRefresh failingAdaptor; ForceRefresh failingAdaptor].

End SchedulerExamples.

(** ** The order of search results as the specification words it

    Organizational units first, then the users in ascending uid, then the
    groups in ascending cn. *)

Module SearchOrderSpec.
Import LDAPServer.

Fixpoint insertBy {A} (key : A -> string) (x : A) (l : list A) : list A :=
  match l with
  | [] => [x]
  | y :: l' => if String.leb (key x) (key y) then x :: l else y :: insertBy key x l'
  end.

Definition ascending {A} (key : A -> string) (l : list A) : list A :=
  foldr (insertBy key) [] l.

Definition emitted (ctx : SearchContext) : list LDAP.SearchResultEntry.t :=
  createOUEntries ctx
  ++ fold_left (pushUser ctx) (ascending User.username (users ctx)) []
  ++ fold_left (pushGroup ctx) (ascending Group.name (groups ctx)) [].

End SearchOrderSpec.

(** Concrete server inputs used in examples. *)

Module ServerExamples.
Import LDAP LDAPServer.

(** No service account, anonymous bind not enabled. *)
Definition openConfig : Config :=
  configOf {| opt_port := None; opt_bindDN := None; opt_bindPassword := None;
              opt_baseDN := "dc=example,dc=com"; opt_sizeLimit := None;
              opt_allowAnonymousBind := None |}.

(** A service account, and anonymous bind enabled as well. *)
Definition mixedConfig : Config :=
  configOf {| opt_port := None; opt_bindDN := Some "cn=svc,dc=example,dc=com";
              opt_bindPassword := Some "s3cret";
              opt_baseDN := "dc=example,dc=com"; opt_sizeLimit := None;
              opt_allowAnonymousBind := Some true |}.

Definition anonymousBind : BindRequest.t :=
  {| BindRequest.version := 3; BindRequest.name := EmptyString;
     BindRequest.authentication := Simple EmptyString |}.

Definition wrongPasswordBind : BindRequest.t :=
  {| BindRequest.version := 3; BindRequest.name := "cn=intruder,dc=example,dc=com";
     BindRequest.authentication := Simple "guess" |}.

(** A subtree search below the suffix. *)
Definition subtreeSearch (clientSizeLimit : Z) (f : Filter) : SearchRequest.t :=
  {| SearchRequest.baseObject := "dc=example,dc=com";
     SearchRequest.scope := 2;
     SearchRequest.derefAliases := 0;
     SearchRequest.sizeLimit := clientSizeLimit;
     SearchRequest.timeLimit := 0;
     SearchRequest.typesOnly := false;
     SearchRequest.filter := f;
     SearchRequest.attributes := ["cn"] |}.

Definition searchMessage (req : SearchRequest.t) : LDAPMessage.t :=
  {| LDAPMessage.messageID := 2; LDAPMessage.protocolOp := OpSearchRequest req;
     LDAPMessage.controls := None |}.

Definition subtreeContext : SearchContext :=
  createSearchContext openConfig (Some BuilderExamples.smallSnapshot)
    (normalizeSearchRequest (subtreeSearch 0 (Present "objectClass"))).

(** An extensibleMatch filter, context tag 9, as a block; the bytes are
    those of the assertion (:=x) with the value tag 3. *)
Definition extensibleMatchBlock : LDAPCodec.BaseBlock :=
  LDAPCodec.Constructed 3 9 [0xA9; 0x03; 0x83; 0x01; 0x78]
    [LDAPCodec.Primitive 3 3 [0x83; 0x01; 0x78]].

(** Stand-ins for the two library functions: a BER reader that finds no
    block and a decoder that reads every byte as one character. *)
Definition noBER : list Z -> option LDAPCodec.BaseBlock := fun _ => None.
Definition byteDecoder (bytes : list Z) : string :=
  JSString.ofChars (JSString.char <$> bytes).

Definition extensibleMatchFilter : Filter :=
  LDAPCodec.decodeSearchFilter noBER byteDecoder (Some extensibleMatchBlock).

(** The text the stand-in decoder reads from the extensibleMatch block. *)
Definition extensibleMatchText : string := byteDecoder [0xA9; 0x03; 0x83; 0x01; 0x78].

(** The conjunction of the presence filter on objectClass and the
    negation of the extensibleMatch block. *)
Definition presentBytes : list Z := [0x87; 0x0B] ++ JS.charCodes "objectClass".
Definition notBytes : list Z := [0xA2; 0x05; 0xA9; 0x03; 0x83; 0x01; 0x78].

Definition nestedExtensibleBlock : LDAPCodec.BaseBlock :=
  LDAPCodec.Constructed 3 0 ([0xA0; 0x14] ++ presentBytes ++ notBytes)
    [LDAPCodec.Primitive 3 7 presentBytes;
     LDAPCodec.Constructed 3 2 notBytes [extensibleMatchBlock]].

(** An extensibleMatch block from which no text is read. *)
Definition emptyExtensibleBlock : LDAPCodec.BaseBlock := LDAPCodec.Primitive 3 9 [].

End ServerExamples.

(** * Proofs *)

(** ** Numbers *)

Section Numbers.

Lemma roundToDouble_exact n : - 2 ^ 53 <= n <= 2 ^ 53 -> JS.roundToDouble n = n.
Proof.
  intros H. unfold JS.roundToDouble. cbv zeta.
  by rewrite (proj2 (Z.leb_le (Z.abs n) (2 ^ 53))) by lia.
Qed.

Lemma succ_exact x : - 2 ^ 53 <= x + 1 <= 2 ^ 53 -> JS.succ x = x + 1.
Proof. apply roundToDouble_exact. Qed.

Lemma succ_safe x : JS.isSafeInteger x -> JS.succ x = x + 1.
Proof.
  unfold JS.isSafeInteger, JS.MAX_SAFE_INTEGER. intros H. apply succ_exact. lia.
Qed.

(** At 2^53 the successor is the number itself. *)
Lemma succ_stalls : JS.succ (2 ^ 53) = 2 ^ 53.
Proof. reflexivity. Qed.

Lemma succ_bounds x :
  - 2 ^ 53 <= x + 1 -> x <= 2 ^ 53 -> x <= JS.succ x <= 2 ^ 53.
Proof.
  intros H1 H2. destruct (decide (x = 2 ^ 53)) as [->|].
  - rewrite succ_stalls. lia.
  - rewrite succ_exact by lia. lia.
Qed.

End Numbers.

(** ** The allocator *)

Section AllocatorFacts.
Import IdAllocator IdAllocatorInv.

Variable cfg : Config.

Lemma consistent_commit key i st :
  consistent st -> key <> ""%string ->
  byKey st !! key = None -> byId st !! i = None ->
  consistent (commit key i st).
Proof.
  intros [Hki Hik Hne] Hkey Hk Hi. split; simpl.
  - intros k j. rewrite lookup_insert. case_decide as Hd.
    + intros [= <-]. subst k. by rewrite lookup_insert_eq.
    + intros Hj. rewrite lookup_insert_ne; [by apply Hki|].
      intros ->. apply Hki in Hj. congruence.
  - intros j k. rewrite lookup_insert. case_decide as Hd.
    + intros [= <-]. subst j. by rewrite lookup_insert_eq.
    + intros Hj. rewrite lookup_insert_ne; [by apply Hik|].
      intros ->. apply Hik in Hj. congruence.
  - intros j k. rewrite lookup_insert. case_decide.
    + by intros [= <-].
    + apply Hne.
Qed.

Lemma aboveFloor_commit key i st :
  aboveFloor cfg st -> floor cfg < i -> aboveFloor cfg (commit key i st).
Proof.
  intros [Hids Hcur Hfl Hex] Hi. split; simpl; [|done..].
  intros k j. rewrite lookup_insert. case_decide.
  - by intros [= <-].
  - apply Hids.
Qed.

Lemma below_commit limit key i st :
  below limit st -> i < limit -> below limit (commit key i st).
Proof.
  intros [Hlow Hcur Hids] Hi. split; simpl; [done..|].
  intros j k. rewrite lookup_insert. case_decide.
  - intros _. by subst j.
  - apply Hids.
Qed.

Lemma below_same st st' limit :
  byId st' = byId st -> nextSeq st' = nextSeq st -> below limit st -> below limit st'.
Proof. intros E1 E2 [H1 H2 H3]. split; rewrite ?E1, ?E2; done. Qed.

Lemma room_less n m st : (m <= n)%nat -> room n st -> room m st.
Proof.
  intros Hm (limit & H1 & H2 & H3). exists limit. split_and!; [done| lia |done].
Qed.

(** The 31 bits that [hashToInt] keeps. *)
Lemma hashToInt_range input : 0 <= hashToInt input < 2 ^ 31.
Proof.
  unfold hashToInt. change 0x7fffffff with (Z.ones 31).
  rewrite Z.land_ones by lia. apply Z.mod_pos_bound. lia.
Qed.

End AllocatorFacts.

Section AllocatorSequential.
Import IdAllocator IdAllocatorInv.

Variable cfg : Config.

Lemma aboveCeiling_beyond i :
  ceiling cfg <> Some 0 ->
  aboveCeiling cfg i = IdAllocatorSpec.beyondCeiling cfg i.
Proof.
  unfold aboveCeiling, IdAllocatorSpec.beyondCeiling.
  destruct (ceiling cfg) as [c|]; [|done].
  intros Hc. destruct (Z.eqb_spec c 0) as [->|]; [congruence|done].
Qed.

(** While the candidates are below 2^53 the loop is the search for the
    first id at or after the cursor that is free or beyond the ceiling. *)
Lemma nextSequentialLoop_find fuel st :
  - 2 ^ 53 <= nextSeq st + 1 ->
  match find (fun i => aboveCeiling cfg i || IdAllocatorSpec.free st i)
             (seqZ (nextSeq st) (Z.of_nat fuel)) with
  | Some i =>
      i < 2 ^ 53 ->
      nextSequentialLoop cfg fuel st =
      (if aboveCeiling cfg i
       then Throw "ID allocator sequential ceiling exhausted"
       else Ok i, setNextSeq (i + 1) st)
  | None =>
      nextSeq st + Z.of_nat fuel <= 2 ^ 53 ->
      (nextSequentialLoop cfg fuel st).1 = OutOfFuel
  end.
Proof.
  revert st. induction fuel as [|fuel IH]; intros st Hlow.
  - rewrite seqZ_nil by (cbn; lia). by intros _.
  - rewrite seqZ_cons by lia.
    replace (Z.pred (Z.of_nat (S fuel))) with (Z.of_nat fuel) by lia.
    simpl. destruct (aboveCeiling cfg (nextSeq st)) eqn:Hab; simpl.
    { intros Hi. by rewrite Hab, succ_exact by lia. }
    unfold IdAllocatorSpec.free at 1.
    case_decide as Hd.
    + rewrite bool_decide_eq_false_2 by (intros E; rewrite E in Hd; by destruct Hd).
      pose proof (IH (setNextSeq (Z.succ (nextSeq st)) st)) as IH'.
      cbn [nextSeq setNextSeq] in IH'.
      destruct (find _ (seqZ (Z.succ (nextSeq st)) _)) as [i|] eqn:Hf.
      * intros Hi. apply find_some in Hf as [Hin _].
        apply list_elem_of_In, elem_of_seqZ in Hin.
        rewrite succ_exact by lia.
        replace (nextSeq st + 1) with (Z.succ (nextSeq st)) by lia.
        apply IH'; [lia|done].
      * intros Hb. rewrite succ_exact by lia.
        replace (nextSeq st + 1) with (Z.succ (nextSeq st)) by lia.
        apply IH'; lia.
    + rewrite bool_decide_eq_true_2 by (by apply eq_None_not_Some).
      intros Hi. by rewrite Hab, succ_exact by lia.
Qed.

(** The reverse map has fewer entries than the counter has candidates. *)
Lemma sequential_candidate_exists (st : InternalState) (p : Z -> bool) :
  exists i, find (fun i => p i || IdAllocatorSpec.free st i)
                 (seqZ (nextSeq st) (Z.of_nat (size (byId st)) + 1)) = Some i.
Proof.
  destruct (find _ _) as [i|] eqn:Hf; [by eexists|]. exfalso.
  assert (Hsub : list_to_set (C := gset Z)
            (seqZ (nextSeq st) (Z.of_nat (size (byId st)) + 1)) ⊆ dom (byId st)).
  { intros i Hi. apply elem_of_list_to_set, list_elem_of_In in Hi.
    pose proof (find_none _ _ Hf i Hi) as Hp. cbn in Hp.
    apply orb_false_elim in Hp as [_ Hp]. unfold IdAllocatorSpec.free in Hp.
    apply bool_decide_eq_false in Hp. apply elem_of_dom.
    by apply not_eq_None_Some. }
  apply subseteq_size in Hsub.
  rewrite size_list_to_set in Hsub by apply NoDup_seqZ.
  rewrite length_seqZ, size_dom in Hsub. lia.
Qed.

(** [find] yields the first element that passes. *)
Lemma find_seqZ_first (f : Z -> bool) (n : nat) (a i j : Z) :
  find f (seqZ a (Z.of_nat n)) = Some i -> a <= j < i -> f j = false.
Proof.
  revert a. induction n as [|n IH]; intros a.
  - by rewrite seqZ_nil by (cbn; lia).
  - rewrite seqZ_cons by lia.
    replace (Z.pred (Z.of_nat (S n))) with (Z.of_nat n) by lia.
    simpl. destruct (f a) eqn:Hfa.
    + intros [= <-]. lia.
    + intros Hf Hj. destruct (decide (j = a)) as [->|]; [done|].
      apply (IH (Z.succ a)); [done|lia].
Qed.

(** The sequential counter stops while it counts exactly: it returns the
    first free id at or after the cursor, or throws on passing the
    ceiling. *)
Lemma nextSequential_find st :
  - 2 ^ 53 <= nextSeq st + 1 ->
  nextSeq st + Z.of_nat (size (byId st)) < 2 ^ 53 ->
  exists i,
    find (fun i => aboveCeiling cfg i || IdAllocatorSpec.free st i)
         (seqZ (nextSeq st) (Z.of_nat (size (byId st)) + 1)) = Some i
    /\ nextSequential cfg st =
       (if aboveCeiling cfg i
        then Throw "ID allocator sequential ceiling exhausted"
        else Ok i, setNextSeq (i + 1) st).
Proof.
  intros Hlow Hroom. unfold nextSequential.
  pose proof (nextSequentialLoop_find (S (size (byId st))) st Hlow) as H.
  replace (Z.of_nat (S (size (byId st)))) with (Z.of_nat (size (byId st)) + 1)
    in H by lia.
  destruct (sequential_candidate_exists st (aboveCeiling cfg)) as [i Hi].
  rewrite Hi in H. exists i. split; [done|]. apply H.
  apply find_some in Hi as [Hin _].
  apply list_elem_of_In, elem_of_seqZ in Hin. lia.
Qed.

(** The same when cursor and ids are known to lie below a limit. *)
Lemma nextSequential_below limit st :
  below limit st -> limit < 2 ^ 53 ->
  exists i,
    nextSeq st <= i <= limit
    /\ nextSequential cfg st =
       (if aboveCeiling cfg i
        then Throw "ID allocator sequential ceiling exhausted"
        else Ok i, setNextSeq (i + 1) st).
Proof.
  intros [Hlow Hcur Hids] Hlim. unfold nextSequential.
  pose proof (nextSequentialLoop_find (S (size (byId st))) st) as H.
  replace (Z.of_nat (S (size (byId st)))) with (Z.of_nat (size (byId st)) + 1)
    in H by lia.
  destruct (sequential_candidate_exists st (aboveCeiling cfg)) as [i Hi].
  rewrite Hi in H.
  assert (Hi' : nextSeq st <= i <= limit).
  { pose proof Hi as Hin. apply find_some in Hin as [Hin _].
    apply list_elem_of_In, elem_of_seqZ in Hin. split; [lia|].
    destruct (Z.le_gt_cases i limit) as [|Hgt]; [done|]. exfalso.
    replace (Z.of_nat (size (byId st)) + 1)
      with (Z.of_nat (S (size (byId st)))) in Hi by lia.
    pose proof (find_seqZ_first _ _ _ _ limit Hi (conj Hcur Hgt)) as Hp.
    cbn in Hp. apply orb_false_elim in Hp as [_ Hp].
    unfold IdAllocatorSpec.free in Hp. apply bool_decide_eq_false in Hp.
    destruct (byId st !! limit) as [k|] eqn:Hk; [|done].
    apply Hids in Hk. lia. }
  exists i. split; [done|]. apply H; lia.
Qed.

(** From 2^53 on the counter no longer advances: when that id is taken
    and no ceiling stops the loop, no amount of fuel is enough. *)
Lemma nextSequentialLoop_stalls fuel st :
  nextSeq st = 2 ^ 53 -> is_Some (byId st !! (2 ^ 53)) ->
  aboveCeiling cfg (2 ^ 53) = false ->
  nextSequentialLoop cfg fuel st = (OutOfFuel, st).
Proof.
  intros Hn Htaken Hceil. induction fuel as [|fuel IH]; [done|].
  cbn [nextSequentialLoop]. rewrite Hn, succ_stalls, Hceil.
  assert (setNextSeq (2 ^ 53) st = st) as ->.
  { destruct st. simpl in Hn. unfold setNextSeq. simpl. by rewrite Hn. }
  by rewrite decide_True.
Qed.

(** Whatever happens, the loop leaves the maps alone and the cursor above
    the floor; an id it returns is free and above the floor. *)
Lemma nextSequentialLoop_invariant fuel st :
  - 2 ^ 53 <= floor cfg -> floor cfg < nextSeq st -> nextSeq st <= 2 ^ 53 ->
  let '(r, st') := nextSequentialLoop cfg fuel st in
  byKey st' = byKey st /\ byId st' = byId st
  /\ floor cfg < nextSeq st' <= 2 ^ 53
  /\ forall i, r = Ok i -> floor cfg < i /\ byId st !! i = None.
Proof.
  intros Hfl. revert st. induction fuel as [|fuel IH]; intros st Hcur Hex.
  - simpl. by split_and!.
  - cbn [nextSequentialLoop]. cbv zeta.
    pose proof (succ_bounds (nextSeq st) ltac:(lia) Hex) as Hs.
    destruct (aboveCeiling cfg (nextSeq st)).
    { simpl. split_and!; try done; lia. }
    case_decide as Hd.
    + specialize (IH (setNextSeq (JS.succ (nextSeq st)) st)).
      destruct (nextSequentialLoop cfg fuel _) as [r st'].
      apply IH; simpl; lia.
    + simpl. split_and!; try done; try lia.
      intros i [= <-]. split; [done|]. by apply eq_None_not_Some.
Qed.

End AllocatorSequential.

Section AllocatorHash.
Import IdAllocator IdAllocatorInv.

Variable cfg : Config.

Lemma hashToInt_candidate key attempt :
  hashToInt (hashInput cfg attempt key) =
  IdAllocatorSpec.candidate JS.charCodes cfg key attempt.
Proof. reflexivity. Qed.

(** One round of the loop against the specification's acceptance test. *)
Lemma hashRound_accepted key attempt st :
  consistent st -> ceiling cfg <> Some 0 -> byKey st !! key = None ->
  let c := IdAllocatorSpec.candidate JS.charCodes cfg key attempt in
  if IdAllocatorSpec.accepted JS.charCodes cfg st key attempt
  then hashRound cfg key attempt st =
       Return {| id := c; hashed := true; collisionCount := attempt |}
              (commit key c st)
  else exists st', hashRound cfg key attempt st = Continue st'
                   /\ byKey st' = byKey st /\ byId st' = byId st
                   /\ nextSeq st' = nextSeq st.
Proof.
  intros Hc Hceil Hkey c. unfold IdAllocatorSpec.accepted, hashRound.
  rewrite hashToInt_candidate. fold c.
  unfold IdAllocatorSpec.rejected. rewrite <- aboveCeiling_beyond by done.
  destruct (c <=? floor cfg); simpl; [by eexists|].
  destruct (aboveCeiling cfg c); simpl; [by eexists|].
  unfold IdAllocatorSpec.free. destruct (byId st !! c) as [k|] eqn:Hk.
  - rewrite bool_decide_eq_false_2 by done.
    assert (JS.truthy k = true) as ->.
    { unfold JS.truthy. destruct (String.eqb_spec k ""); [|done].
      by destruct (key_nonempty _ Hc _ _ Hk). }
    simpl. destruct (String.eqb_spec k key) as [->|_].
    + apply (id_to_key _ Hc) in Hk. congruence.
    + by eexists.
  - by rewrite bool_decide_eq_true_2.
Qed.

Lemma accepted_same_maps st st' key :
  byId st' = byId st ->
  IdAllocatorSpec.accepted JS.charCodes cfg st' key =
  IdAllocatorSpec.accepted JS.charCodes cfg st key.
Proof.
  intros E. unfold IdAllocatorSpec.accepted, IdAllocatorSpec.free.
  by rewrite E.
Qed.

Lemma consistent_same_maps st st' :
  byKey st' = byKey st -> byId st' = byId st -> consistent st -> consistent st'.
Proof. intros E1 E2 [H1 H2 H3]. split; rewrite ?E1, ?E2; done. Qed.

(** With a retry limit that is a safe integer the attempts are counted
    exactly, and the loop is the search for the first attempt whose
    candidate is accepted. *)
Lemma hashLoop_find fuel key attempt st :
  consistent st -> ceiling cfg <> Some 0 -> byKey st !! key = None ->
  JS.isSafeInteger (retryLimit cfg) -> 0 <= attempt ->
  Z.of_nat fuel = retryLimit cfg + 1 - attempt ->
  match find (IdAllocatorSpec.accepted JS.charCodes cfg st key)
             (seqZ attempt (Z.of_nat fuel)) with
  | Some a =>
      let c := IdAllocatorSpec.candidate JS.charCodes cfg key a in
      exists st0,
        byKey st0 = byKey st /\ byId st0 = byId st /\
        hashLoop cfg fuel key attempt st =
        (Ok (Some {| id := c; hashed := true; collisionCount := a |}),
         commit key c st0)
  | None =>
      exists st1, hashLoop cfg fuel key attempt st = (Ok None, st1)
                  /\ byKey st1 = byKey st /\ byId st1 = byId st
                  /\ nextSeq st1 = nextSeq st
  end.
Proof.
  intros Hc Hceil Hkey Hsafe. revert attempt st Hc Hkey.
  induction fuel as [|fuel IH]; intros attempt st Hc Hkey Hatt Hfuel.
  - rewrite seqZ_nil by (cbn; lia). simpl.
    rewrite (proj2 (Z.leb_gt attempt (retryLimit cfg))) by lia. by eexists.
  - rewrite seqZ_cons by lia.
    replace (Z.pred (Z.of_nat (S fuel))) with (Z.of_nat fuel) by lia.
    simpl. rewrite (proj2 (Z.leb_le attempt (retryLimit cfg))) by lia.
    assert (JS.succ attempt = Z.succ attempt) as ->.
    { unfold JS.isSafeInteger, JS.MAX_SAFE_INTEGER in Hsafe.
      rewrite succ_exact by lia. lia. }
    pose proof (hashRound_accepted key attempt st Hc Hceil Hkey) as Hr.
    cbv zeta in Hr.
    destruct (IdAllocatorSpec.accepted JS.charCodes cfg st key attempt).
    + rewrite Hr. by exists st.
    + destruct Hr as (st' & -> & E1 & E2 & E3).
      specialize (IH (Z.succ attempt) st').
      rewrite (accepted_same_maps st st' key E2) in IH.
      destruct (find _ _) as [a|].
      * destruct IH as (st0 & F1 & F2 & ->);
          [by eapply consistent_same_maps|by rewrite E1|lia|lia|].
        exists st0. by rewrite F1, F2, E1, E2.
      * destruct IH as (st1 & -> & F1 & F2 & F3);
          [by eapply consistent_same_maps|by rewrite E1|lia|lia|].
        exists st1. by rewrite F1, F2, F3, E1, E2, E3.
Qed.

(** When the retry limit is 2^53 or more, [attempt++] stops advancing at
    2^53: if the candidate of that attempt is not accepted either, the
    loop goes on for ever. *)
Lemma hashLoop_stalls fuel key st :
  2 ^ 53 <= retryLimit cfg ->
  (exists st', hashRound cfg key (2 ^ 53) st = Continue st') ->
  (hashLoop cfg fuel key (2 ^ 53) st).1 = OutOfFuel.
Proof.
  intros Hr. revert st. induction fuel as [|fuel IH]; intros st [st' Hst'].
  - simpl. by rewrite (proj2 (Z.leb_le (2 ^ 53) (retryLimit cfg))) by lia.
  - cbn [hashLoop]. rewrite (proj2 (Z.leb_le (2 ^ 53) (retryLimit cfg))) by lia.
    rewrite Hst', succ_stalls. apply IH.
    revert Hst'. unfold hashRound.
    destruct (_ <=? floor cfg) eqn:E1; [by eexists|].
    destruct (aboveCeiling cfg _) eqn:E2; [by eexists|].
    destruct (byId st !! _) as [k|] eqn:Hk; [|done].
    destruct (negb (JS.truthy k)) eqn:E3; [done|].
    destruct (String.eqb k key) eqn:E4; [done|].
    intros [= <-]. simpl. rewrite Hk, E3, E4. by eexists.
Qed.

End AllocatorHash.

Section AsciiStrings.

Lemma find_pointwise {A} (f g : A -> bool) (l : list A) :
  (forall a, f a = g a) -> find f l = find g l.
Proof. intros E. induction l as [|x l IH]; simpl; [done|]. by rewrite E, IH. Qed.

Lemma charCodes_app (a b : string) :
  JS.charCodes (a +:+ b) = JS.charCodes a ++ JS.charCodes b.
Proof.
  unfold JS.charCodes. induction a as [|c a IH]; [done|].
  simpl. f_equal. exact IH.
Qed.

Lemma isAscii_app (a b : string) :
  JS.isAscii a -> JS.isAscii b -> JS.isAscii (a +:+ b).
Proof.
  unfold JS.isAscii. rewrite charCodes_app. intros. by apply Forall_app.
Qed.

Lemma isAscii_digits (d : Decimal.uint) : JS.isAscii (NilEmpty.string_of_uint d).
Proof.
  unfold JS.isAscii, JS.charCodes.
  induction d; cbn [NilEmpty.string_of_uint list_ascii_of_string];
    rewrite ?fmap_cons; constructor; (done || by vm_compute).
Qed.

Lemma isAscii_ofNat (n : Z) : JS.isAscii (JS.ofNat n).
Proof.
  unfold JS.ofNat, NilZero.string_of_uint.
  destruct (N.to_uint _); try apply isAscii_digits.
  repeat constructor.
Qed.

Lemma utf8_ascii (s : string) : JS.isAscii s -> JS.utf8 s = JS.charCodes s.
Proof.
  unfold JS.isAscii, JS.utf8. induction 1 as [|c l Hc _ IH]; [done|].
  cbn [mbind list_bind]. fold (l ≫= JS.utf8_of_code). rewrite IH.
  unfold JS.utf8_of_code. by rewrite (proj2 (Z.ltb_lt c 128) Hc).
Qed.

End AsciiStrings.

Section AllocatorRefinement.
Import IdAllocator IdAllocatorInv.

Variable cfg : Config.

Lemma candidate_ascii key attempt :
  JS.isAscii (salt cfg) -> JS.isAscii key ->
  IdAllocatorSpec.candidate JS.charCodes cfg key attempt =
  IdAllocatorSpec.candidate JS.utf8 cfg key attempt.
Proof.
  intros Hs Hk. unfold IdAllocatorSpec.candidate. rewrite utf8_ascii; [done|].
  repeat apply isAscii_app; try done; try apply isAscii_ofNat; by repeat constructor.
Qed.

Lemma spec_allocate_ascii key st :
  JS.isAscii (salt cfg) -> JS.isAscii key ->
  IdAllocatorSpec.allocate JS.charCodes cfg key st =
  IdAllocatorSpec.allocate JS.utf8 cfg key st.
Proof.
  intros Hs Hk. unfold IdAllocatorSpec.allocate.
  assert (E : forall a, IdAllocatorSpec.accepted JS.charCodes cfg st key a =
                        IdAllocatorSpec.accepted JS.utf8 cfg st key a).
  { intros a. unfold IdAllocatorSpec.accepted. by rewrite candidate_ascii. }
  rewrite (find_pointwise _ _ _ E).
  destruct (find _ _); [|done]. by rewrite candidate_ascii.
Qed.

End AllocatorRefinement.

Section AllocatorClaim.
Import IdAllocator IdAllocatorInv.

(** C2 (as amended): for a key that is not in the map, [allocate] does what
    the specification describes, with the hash taken over the code units
    of the input (strings of code units below 256): attempts
    0..retryLimit, FNV-1a 64 folded with AND 0x7FFFFFFF, ids at or below
    the floor or above the ceiling rejected, the first free id committed
    with hashed=true and collisionCount equal to the attempt, and otherwise
    the sequential counter skipping taken ids with hashed=false.  This
    holds, and the call finishes, when the retry limit, the sequential
    counter, and the counter plus the number of ids in the reverse map are
    safe integers, so that [attempt++] and [nextSeq++] count exactly.  For
    an ASCII salt and key the code units are the UTF-8 bytes. *)
Theorem allocate_new_key_refines_spec (cfg : Config) (key : string) (st : InternalState) :
  consistent st -> ceiling cfg <> Some 0 -> byKey st !! key = None ->
  JS.isSafeInteger (retryLimit cfg) ->
  JS.isSafeInteger (nextSeq st) ->
  JS.isSafeInteger (nextSeq st + Z.of_nat (size (byId st))) ->
  IdAllocatorSpec.observe (allocate cfg key st) =
    IdAllocatorSpec.allocate JS.charCodes cfg key st
  /\ (allocate cfg key st).1 <> OutOfFuel
  /\ (JS.isAscii (salt cfg) -> JS.isAscii key ->
      IdAllocatorSpec.observe (allocate cfg key st) =
        IdAllocatorSpec.allocate JS.utf8 cfg key st).
Proof.
  intros Hc Hceil Hkey Hretry Hcur Hroom.
  assert (Hlow : - 2 ^ 53 <= nextSeq st + 1
                 /\ nextSeq st + Z.of_nat (size (byId st)) < 2 ^ 53).
  { unfold JS.isSafeInteger, JS.MAX_SAFE_INTEGER in Hcur, Hroom. lia. }
  destruct Hlow as [Hlow Hup].
  assert (Hcount : JS.succ (retryLimit cfg) = retryLimit cfg + 1)
    by (by apply succ_safe).
  assert (Hobs : IdAllocatorSpec.observe (allocate cfg key st) =
                 IdAllocatorSpec.allocate JS.charCodes cfg key st
                 /\ (allocate cfg key st).1 <> OutOfFuel).
  { unfold allocate, IdAllocatorSpec.allocate. rewrite Hkey, Hcount.
    set (fuel := Z.to_nat (retryLimit cfg + 1)).
    assert (Hseq : seqZ 0 (retryLimit cfg + 1) = seqZ 0 (Z.of_nat fuel)).
    { subst fuel. destruct (Z.le_gt_cases 0 (retryLimit cfg + 1)).
      - by rewrite Z2Nat.id.
      - rewrite !seqZ_nil; [done|lia|lia]. }
    rewrite Hseq.
    destruct (Z.le_gt_cases 0 (retryLimit cfg + 1)) as [Hr|Hr].
    - pose proof (hashLoop_find cfg fuel key 0 st Hc Hceil Hkey Hretry) as Hl.
      destruct (find _ (seqZ 0 (Z.of_nat fuel))) as [a|].
      + destruct Hl as (st0 & E1 & E2 & ->); [lia|unfold fuel; lia|].
        simpl. unfold IdAllocatorSpec.committed. by rewrite E1, E2.
      + destruct Hl as (st1 & -> & E1 & E2 & E3); [lia|unfold fuel; lia|].
        destruct (nextSequential_find cfg st1) as (i & Hi & ->);
          [by rewrite E3|by rewrite E2, E3|].
        rewrite E2, E3 in Hi.
        rewrite (find_pointwise _ (fun i => IdAllocatorSpec.beyondCeiling cfg i
                                           || IdAllocatorSpec.free st i)) in Hi.
        2:{ intros j. rewrite aboveCeiling_beyond by done.
            unfold IdAllocatorSpec.free. by rewrite E2. }
        rewrite Hi, aboveCeiling_beyond by done.
        destruct (IdAllocatorSpec.beyondCeiling cfg i); simpl; [done|].
        unfold IdAllocatorSpec.committed. by rewrite E1, E2.
    - assert (fuel = O) as -> by (unfold fuel; lia). simpl.
      rewrite (proj2 (Z.leb_gt 0 (retryLimit cfg))) by lia.
      destruct (nextSequential_find cfg st Hlow Hup) as (i & Hi & ->).
      rewrite (find_pointwise _ (fun i => IdAllocatorSpec.beyondCeiling cfg i
                                         || IdAllocatorSpec.free st i)) in Hi.
      2:{ intros j. by rewrite aboveCeiling_beyond. }
      rewrite Hi, aboveCeiling_beyond by done.
      by destruct (IdAllocatorSpec.beyondCeiling cfg i). }
  destruct Hobs as [Hobs Hfuel]. repeat split; [done|done|].
  intros Hs Hk. rewrite Hobs. by apply spec_allocate_ascii.
Qed.

End AllocatorClaim.

Section AllocatorInitial.
Import IdAllocator IdAllocatorInv.

Lemma consistent_initial opts : consistent (initialState opts).
Proof. split; simpl; intros ? ?; by rewrite lookup_empty. Qed.

End AllocatorInitial.

Lemma allocate_new_key_witness :
  IdAllocatorSpec.observe
    (IdAllocator.allocate AllocatorExamples.testConfig "user1" AllocatorExamples.testState) =
  IdAllocatorSpec.allocate JS.charCodes AllocatorExamples.testConfig "user1"
    AllocatorExamples.testState
  /\ AllocatorExamples.returnedId
       (IdAllocator.allocate AllocatorExamples.testConfig "user1"
          AllocatorExamples.testState) = Some 441259440.
Proof.
  split; [|by vm_compute].
  refine (proj1 (allocate_new_key_refines_spec AllocatorExamples.testConfig "user1"
                   AllocatorExamples.testState _ _ _ _ _ _)).
  - apply consistent_initial.
  - discriminate.
  - reflexivity.
  - split; vm_compute; discriminate.
  - split; vm_compute; discriminate.
  - split; vm_compute; discriminate.
Defined.

(** C2, counterexample: on the key U+00E9 the code hashes the single code
    unit 0xE9, the specification's UTF-8 reading hashes the bytes C3 A9, and
    the two ids differ. *)
Lemma allocate_utf8_counterexample :
  IdAllocator.byKey AllocatorExamples.testState !! AllocatorExamples.accentedKey = None
  /\ IdAllocatorSpec.observe
       (IdAllocator.allocate AllocatorExamples.testConfig AllocatorExamples.accentedKey
          AllocatorExamples.testState)
     <> IdAllocatorSpec.allocate JS.utf8 AllocatorExamples.testConfig
          AllocatorExamples.accentedKey AllocatorExamples.testState.
Proof.
  split; [reflexivity|]. intros H.
  apply (f_equal AllocatorExamples.resultId) in H.
  vm_compute in H. discriminate H.
Qed.

Section AllocatorInvariant.
Import IdAllocator IdAllocatorInv.

Variable cfg : Config.

Lemma keeps_refl st : keeps st st.
Proof. by intros k i. Qed.

Lemma keeps_trans st1 st2 st3 : keeps st1 st2 -> keeps st2 st3 -> keeps st1 st3.
Proof. intros H1 H2 k i Hk. by apply H2, H1. Qed.

Lemma keeps_commit key i st : byKey st !! key = None -> keeps st (commit key i st).
Proof.
  intros Hkey k j Hk. simpl. rewrite lookup_insert_ne; [done|]. congruence.
Qed.

Lemma keeps_same_maps st st' : byKey st' = byKey st -> keeps st st'.
Proof. intros E k i. by rewrite E. Qed.

Lemma aboveFloor_same_maps st st' :
  byKey st' = byKey st -> nextSeq st' = nextSeq st ->
  aboveFloor cfg st -> aboveFloor cfg st'.
Proof. intros E1 E2 [H1 H2 H3 H4]. split; rewrite ?E1, ?E2; done. Qed.

Lemma hashRound_invariant key attempt st :
  consistent st -> aboveFloor cfg st -> key <> EmptyString ->
  byKey st !! key = None ->
  match hashRound cfg key attempt st with
  | Return r st' =>
      consistent st' /\ aboveFloor cfg st' /\ keeps st st'
      /\ byKey st' !! key = Some (id r)
  | Continue st' =>
      byKey st' = byKey st /\ byId st' = byId st /\ nextSeq st' = nextSeq st
  end.
Proof.
  intros Hc Hf Hne Hkey. unfold hashRound.
  set (c := hashToInt (hashInput cfg attempt key)).
  destruct (Z.leb_spec c (floor cfg)) as [|Hfl]; [done|].
  destruct (aboveCeiling cfg c); [done|].
  destruct (byId st !! c) as [k|] eqn:Hk.
  - assert (JS.truthy k = true) as ->.
    { unfold JS.truthy. destruct (String.eqb_spec k ""); [|done].
      by destruct (key_nonempty _ Hc _ _ Hk). }
    simpl. destruct (String.eqb_spec k key) as [->|_]; [|done].
    apply (id_to_key _ Hc) in Hk. congruence.
  - split_and!.
    + by apply consistent_commit.
    + by apply aboveFloor_commit.
    + by apply keeps_commit.
    + simpl. by rewrite lookup_insert_eq.
Qed.

Lemma hashLoop_invariant fuel key attempt st :
  consistent st -> aboveFloor cfg st -> key <> EmptyString ->
  byKey st !! key = None ->
  match hashLoop cfg fuel key attempt st with
  | (Ok (Some r), st') =>
      consistent st' /\ aboveFloor cfg st' /\ keeps st st'
      /\ byKey st' !! key = Some (id r)
  | (Throw _, _) => False
  | (_, st') =>
      byKey st' = byKey st /\ byId st' = byId st /\ nextSeq st' = nextSeq st
  end.
Proof.
  revert attempt st. induction fuel as [|fuel IH]; intros attempt st Hc Hf Hne Hkey.
  - simpl. by destruct (attempt <=? retryLimit cfg).
  - cbn [hashLoop]. destruct (attempt <=? retryLimit cfg); [|done].
    pose proof (hashRound_invariant key attempt st Hc Hf Hne Hkey) as Hr.
    destruct (hashRound cfg key attempt st) as [st'|r st']; [|done].
    destruct Hr as (E1 & E2 & E3).
    specialize (IH (JS.succ attempt) st').
    destruct (hashLoop cfg fuel key (JS.succ attempt) st') as [[[r|]| |] st''].
    + destruct IH as (H1 & H2 & H3 & H4);
        [by eapply consistent_same_maps|by eapply aboveFloor_same_maps|done
        |by rewrite E1|].
      split_and!; try done.
      eapply keeps_trans; [by apply keeps_same_maps|done].
    + destruct IH as (F1 & F2 & F3);
        [by eapply consistent_same_maps|by eapply aboveFloor_same_maps|done
        |by rewrite E1|].
      by rewrite F1, F2, F3.
    + apply IH; [by eapply consistent_same_maps|by eapply aboveFloor_same_maps|done
                |by rewrite E1].
    + destruct IH as (F1 & F2 & F3);
        [by eapply consistent_same_maps|by eapply aboveFloor_same_maps|done
        |by rewrite E1|].
      by rewrite F1, F2, F3.
Qed.

(** Whatever [allocate] does, it leaves a good state behind; when it
    returns, the key is mapped to the returned id. *)
Lemma allocate_invariant key st :
  consistent st -> aboveFloor cfg st -> key <> EmptyString ->
  let '(r, st') := allocate cfg key st in
  consistent st' /\ aboveFloor cfg st' /\ keeps st st'
  /\ forall res, r = Ok res -> byKey st' !! key = Some (id res).
Proof.
  intros Hc Hf Hne. unfold allocate.
  destruct (byKey st !! key) as [existing|] eqn:Hkey.
  { split_and!; [done|done|apply keeps_refl|]. by intros res [= <-]. }
  pose proof (hashLoop_invariant (Z.to_nat (retryLimit cfg + 1)) key 0 st
                Hc Hf Hne Hkey) as Hl.
  destruct (hashLoop _ _ _ _ _) as [[[r|]| |] st1].
  { destruct Hl as (H1 & H2 & H3 & H4). split_and!; try done. by intros res [= <-]. }
  2:{ done. }
  2:{ destruct Hl as (E1 & E2 & E3). split_and!; try done.
      - by eapply consistent_same_maps.
      - by eapply aboveFloor_same_maps.
      - by apply keeps_same_maps. }
  destruct Hl as (E1 & E2 & E3).
  assert (Hc1 : consistent st1) by (by eapply consistent_same_maps).
  assert (Hf1 : aboveFloor cfg st1) by (by eapply aboveFloor_same_maps).
  unfold nextSequential.
  pose proof (nextSequentialLoop_invariant cfg (S (size (byId st1))) st1
                (floor_exact _ _ Hf1) (cursor_above _ _ Hf1) (cursor_exact _ _ Hf1))
    as Hseq.
  destruct (nextSequentialLoop cfg _ st1) as [r st2].
  destruct Hseq as (G1 & G2 & G3 & G4).
  assert (Hc2 : consistent st2) by (by eapply consistent_same_maps).
  assert (Hf2 : aboveFloor cfg st2).
  { split; [rewrite G1; apply Hf1|lia|apply Hf1|lia]. }
  destruct r as [i| |].
  - destruct (G4 i eq_refl) as [Hi Hfree].
    split_and!.
    + apply consistent_commit; try done.
      * by eapply (consistent_same_maps st2).
      * simpl. by rewrite G1, E1.
      * simpl. by rewrite G2.
    + apply aboveFloor_commit; [|done].
      by apply (aboveFloor_same_maps st2).
    + intros k j Hk. simpl. rewrite lookup_insert_ne; [|congruence].
      by rewrite G1, E1.
    + intros res [= <-]. simpl. by rewrite lookup_insert_eq.
  - split_and!; try done. intros k j. by rewrite G1, E1.
  - split_and!; try done. intros k j. by rewrite G1, E1.
Qed.

(** The hash loop keeps cursor and ids below a limit of at least 2^31. *)
Lemma hashRound_below limit key attempt st :
  2 ^ 31 <= limit -> below limit st ->
  match hashRound cfg key attempt st with
  | Return _ st' | Continue st' => below limit st'
  end.
Proof.
  intros Hlim Hb. unfold hashRound.
  pose proof (hashToInt_range (hashInput cfg attempt key)) as Hrange.
  destruct (_ <=? floor cfg); [done|].
  destruct (aboveCeiling cfg _); [done|].
  destruct (byId st !! _) as [k|].
  - destruct (negb (JS.truthy k)); [apply below_commit; [done|lia]|].
    destruct (String.eqb k key); [done|].
    by apply (below_same st).
  - apply below_commit; [done|lia].
Qed.

Lemma hashLoop_below limit fuel key attempt st :
  2 ^ 31 <= limit -> below limit st ->
  below limit (hashLoop cfg fuel key attempt st).2.
Proof.
  intros Hlim. revert attempt st.
  induction fuel as [|fuel IH]; intros attempt st Hb.
  - simpl. by destruct (attempt <=? retryLimit cfg).
  - cbn [hashLoop]. destruct (attempt <=? retryLimit cfg); [|done].
    pose proof (hashRound_below limit key attempt st Hlim Hb) as Hr.
    destruct (hashRound cfg key attempt st) as [st'|r st']; [|done].
    by apply IH.
Qed.

(** With a retry limit that is a safe integer the hash loop ends: it
    returns an id or leaves the loop. *)
Lemma hashLoop_settles fuel key attempt st :
  JS.isSafeInteger (retryLimit cfg) -> 0 <= attempt ->
  Z.of_nat fuel = Z.max 0 (retryLimit cfg + 1 - attempt) ->
  exists r, (hashLoop cfg fuel key attempt st).1 = Ok r.
Proof.
  intros Hsafe. revert attempt st.
  induction fuel as [|fuel IH]; intros attempt st Hatt Hfuel.
  - simpl. rewrite (proj2 (Z.leb_gt attempt (retryLimit cfg))) by lia. by eexists.
  - cbn [hashLoop]. destruct (attempt <=? retryLimit cfg); [|by eexists].
    destruct (hashRound cfg key attempt st) as [st'|r st']; [|by eexists].
    unfold JS.isSafeInteger, JS.MAX_SAFE_INTEGER in Hsafe.
    rewrite succ_exact by lia. apply IH; lia.
Qed.

(** An allocator with room for one more id answers every call: with an
    id, or with the ceiling error. *)
Lemma allocate_settles key n st :
  JS.isSafeInteger (retryLimit cfg) -> room (S n) st ->
  let '(r, st') := allocate cfg key st in
  room n st' /\ r <> OutOfFuel /\ (ceiling cfg = None -> exists res, r = Ok res).
Proof.
  intros Hsafe (limit & Hlim & Hn & Hb). unfold allocate.
  destruct (byKey st !! key) as [existing|].
  { split_and!; [|done|by eexists]. exists limit. split_and!; [done|lia|done]. }
  pose proof (hashLoop_below limit (Z.to_nat (retryLimit cfg + 1)) key 0 st Hlim Hb)
    as Hb1.
  destruct (hashLoop_settles (Z.to_nat (retryLimit cfg + 1)) key 0 st Hsafe)
    as [r Hr]; [lia|lia|].
  destruct (hashLoop _ _ _ _ _) as [r1 st1]. simpl in Hr, Hb1. subst r1.
  destruct r as [res|].
  { split_and!; [|done|by eexists]. exists limit. split_and!; [done|lia|done]. }
  destruct (nextSequential_below cfg limit st1 Hb1) as (i & Hi & ->); [lia|].
  destruct Hb1 as [Hlow Hcur Hids].
  assert (Hb2 : below (limit + 1) (setNextSeq (i + 1) st1)).
  { split; simpl; [lia|lia|]. intros j k Hj. apply Hids in Hj. lia. }
  unfold aboveCeiling. destruct (ceiling cfg) as [c|].
  - destruct (negb (c =? 0) && (c <? i)).
    + split_and!; [|done|done]. exists (limit + 1). split_and!; [lia|lia|done].
    + split_and!; [|done|done]. exists (limit + 1). split_and!; [lia|lia|].
      apply below_commit; [by apply (below_same (setNextSeq (i + 1) st1))|lia].
  - split_and!; [|done|by eexists]. exists (limit + 1). split_and!; [lia|lia|].
    apply below_commit; [by apply (below_same (setNextSeq (i + 1) st1))|lia].
Qed.

(** With a floor at the top of the hash range every hashed candidate is
    rejected, and the hash loop leaves the state as it is. *)
Lemma hashLoop_floor fuel key attempt st :
  2 ^ 31 - 1 <= floor cfg ->
  (hashLoop cfg fuel key attempt st).2 = st
  /\ forall res, (hashLoop cfg fuel key attempt st).1 <> Ok (Some res).
Proof.
  intros Hfl. revert attempt. induction fuel as [|fuel IH]; intros attempt.
  - simpl. by destruct (attempt <=? retryLimit cfg).
  - cbn [hashLoop]. destruct (attempt <=? retryLimit cfg); [|done].
    unfold hashRound.
    pose proof (hashToInt_range (hashInput cfg attempt key)) as Hrange.
    rewrite (proj2 (Z.leb_le _ (floor cfg))) by lia. apply IH.
Qed.

(** The sequential counter of the source does not pass 2^53: when that id
    is taken and there is no ceiling, a call that reaches the counter does
    not return. *)
Lemma allocate_stalls key st :
  byKey st !! key = None -> 2 ^ 31 - 1 <= floor cfg ->
  JS.isSafeInteger (retryLimit cfg) -> ceiling cfg = None ->
  nextSeq st = 2 ^ 53 -> is_Some (byId st !! (2 ^ 53)) ->
  (allocate cfg key st).1 = OutOfFuel
  /\ forall fuel, nextSequentialLoop cfg fuel st = (OutOfFuel, st).
Proof.
  intros Hkey Hfl Hsafe Hceil Hcur Htaken.
  assert (Hab : aboveCeiling cfg (2 ^ 53) = false).
  { unfold aboveCeiling. by rewrite Hceil. }
  split; [|intros fuel; by apply nextSequentialLoop_stalls].
  unfold allocate. rewrite Hkey.
  destruct (hashLoop_floor (Z.to_nat (retryLimit cfg + 1)) key 0 st Hfl) as [Hst Hnone].
  destruct (hashLoop_settles (Z.to_nat (retryLimit cfg + 1)) key 0 st Hsafe)
    as [r Hr]; [lia|lia|].
  destruct (hashLoop _ _ _ _ _) as [r1 st1]. simpl in Hst, Hr, Hnone. subst r1 st1.
  destruct r as [res|]; [by destruct (Hnone res)|].
  unfold nextSequential. by rewrite nextSequentialLoop_stalls.
Qed.

End AllocatorInvariant.

(** ** The snapshot builder *)

Section BuilderFacts.
Import SnapshotBuilder IdAllocatorInv SnapshotBuilderInv.

Variable env : Env.

Lemma bind_unfold {A B} (m : M A) (k : A -> M B) (st : State) :
  (m ≫= k) st =
  match m st with
  | (Ok a, st') => k a st'
  | (Throw e, st') => (Throw e, st')
  | (OutOfFuel, st') => (OutOfFuel, st')
  end.
Proof. reflexivity. Qed.

Lemma toUser_post (raw : RawUser.t) (st : State) :
  goodUid env st ->
  let '(r, st') := toUser env raw st in
  goodUid env st' /\ keeps (uidAllocator st) (uidAllocator st')
  /\ forall u, r = Ok u -> registered st' (identity u) /\ User.id u = RawUser.id raw.
Proof.
  intros [Hc Hf]. unfold toUser. rewrite bind_unfold. unfold allocateUid at 1.
  pose proof (allocate_invariant (uidConfig env) ("user:" +:+ RawUser.id raw)
                (uidAllocator st) Hc Hf) as Ha.
  destruct (IdAllocator.allocate _ _ _) as [r a].
  destruct Ha as (H1 & H2 & H3 & H4); [done|].
  destruct r as [res| |]; simpl; try done.
  split_and!; try done. intros u [= <-]. unfold registered. simpl.
  split; [by apply H4|done].
Qed.

Lemma mapM_toUser_post (raws : list RawUser.t) (st : State) :
  goodUid env st ->
  let '(r, st') := mapM (toUser env) raws st in
  goodUid env st' /\ keeps (uidAllocator st) (uidAllocator st')
  /\ forall us, r = Ok us ->
       Forall (registered st') (identity <$> us)
       /\ User.id <$> us = RawUser.id <$> raws.
Proof.
  revert st. induction raws as [|raw raws IH]; intros st Hg.
  - simpl. split_and!; [done|apply keeps_refl|]. by intros us [= <-].
  - cbn [mapM]. rewrite bind_unfold.
    pose proof (toUser_post raw st Hg) as Hu.
    destruct (toUser env raw st) as [[u| |] st1].
    + destruct Hu as (G1 & K1 & R1). rewrite bind_unfold.
      specialize (IH st1 G1).
      destruct (mapM (toUser env) raws st1) as [[us| |] st2]; simpl.
      * destruct IH as (G2 & K2 & R2). split_and!; [done|by eapply keeps_trans|].
        intros ? [= <-]. destruct (R1 u eq_refl) as [R1a R1b].
        destruct (R2 us eq_refl) as [R2a R2b]. rewrite !fmap_cons. split.
        -- constructor; [|done]. by apply K2.
        -- by rewrite R1b, R2b.
      * destruct IH as (G2 & K2 & _). split_and!; [done|by eapply keeps_trans|done].
      * destruct IH as (G2 & K2 & _). split_and!; [done|by eapply keeps_trans|done].
    + by destruct Hu as (G1 & K1 & _).
    + by destruct Hu as (G1 & K1 & _).
Qed.

End BuilderFacts.

Section BuilderGroups.
Import SnapshotBuilder IdAllocatorInv SnapshotBuilderInv.

Variable env : Env.

Lemma pushToLast_identity userId groupId users users' :
  pushToLast userId groupId users = Some users' ->
  identity <$> users' = identity <$> users.
Proof.
  revert users'. induction users as [|u rest IH]; intros users'; [done|].
  simpl. destruct (pushToLast userId groupId rest) as [rest'|].
  - intros [= <-]. rewrite !fmap_cons. by rewrite (IH rest').
  - destruct (String.eqb _ _); [|done]. by intros [= <-].
Qed.

Lemma addMembership_identity groupId users userId :
  identity <$> addMembership groupId users userId = identity <$> users.
Proof.
  unfold addMembership.
  destruct (pushToLast userId groupId users) eqn:E; [|done].
  by eapply pushToLast_identity.
Qed.

Lemma memberships_identity groupId members users :
  identity <$> fold_left (addMembership groupId) members users = identity <$> users.
Proof.
  revert users. induction members as [|m members IH]; intros users; [done|].
  simpl. by rewrite IH, addMembership_identity.
Qed.

Lemma toGroup_post users raw st :
  let '(r, st') := toGroup env users raw st in
  uidAllocator st' = uidAllocator st
  /\ forall g users', r = Ok (g, users') ->
       identity <$> users' = identity <$> users /\ groupOf env raw g.
Proof.
  unfold toGroup. rewrite bind_unfold. unfold allocateGid at 1.
  destruct (IdAllocator.allocate _ _ _) as [[res| |] a]; simpl; [|by split|by split].
  split; [done|]. intros g users' [= <- <-].
  split; [apply memberships_identity|]. by repeat split.
Qed.

Lemma processGroups_post raws users st :
  let '(r, st') := processGroups env raws users st in
  uidAllocator st' = uidAllocator st
  /\ forall gs users', r = Ok (gs, users') ->
       identity <$> users' = identity <$> users /\ Forall2 (groupOf env) raws gs.
Proof.
  revert users st. induction raws as [|raw raws IH]; intros users st.
  - simpl. split; [done|]. intros gs users' [= <- <-]. by split.
  - cbn [processGroups]. rewrite bind_unfold.
    pose proof (toGroup_post users raw st) as Hg.
    destruct (toGroup env users raw st) as [[[g users1]| |] st1];
      [|by destruct Hg; split..].
    destruct Hg as [U1 Hg]. destruct (Hg g users1 eq_refl) as [I1 G1].
    rewrite bind_unfold. specialize (IH users1 st1).
    destruct (processGroups env raws users1 st1) as [[[gs users2]| |] st2]; simpl.
    + destruct IH as [U2 IH]. destruct (IH gs users2 eq_refl) as [I2 G2].
      split; [congruence|]. intros ? ? [= <- <-].
      split; [congruence|by constructor].
    + destruct IH as [U2 _]. split; [congruence|done].
    + destruct IH as [U2 _]. split; [congruence|done].
Qed.

Lemma stable_ret {X A} (proj : State -> X) (a : A) : stable proj (mret a).
Proof. by intros st. Qed.

Lemma stable_bind {X A B} (proj : State -> X) (m : M A) (k : A -> M B) :
  stable proj m -> (forall a, stable proj (k a)) -> stable proj (m ≫= k).
Proof.
  intros Hm Hk st. rewrite bind_unfold. specialize (Hm st).
  destruct (m st) as [[a| |] st1]; simpl in *; [|done|done].
  by rewrite Hk.
Qed.

Lemma stable_mapM {X A B} (proj : State -> X) (f : A -> M B) (l : list A) :
  (forall a, stable proj (f a)) -> stable proj (mapM f l).
Proof.
  intros Hf. induction l as [|x l IH]; [apply stable_ret|].
  cbn [mapM]. apply stable_bind; [done|]. intros y.
  apply stable_bind; [done|]. intros ys. apply stable_ret.
Qed.

Lemma stable_allocateGid {X} (proj : State -> X) key :
  (forall st a, proj {| uidAllocator := uidAllocator st; gidAllocator := a;
                        sequenceCounter := sequenceCounter st;
                        clockReads := clockReads st |} = proj st) ->
  stable proj (allocateGid env key).
Proof.
  intros H st. unfold allocateGid.
  destruct (IdAllocator.allocate _ _ _) as [r a]. apply H.
Qed.

Lemma stable_allocateUid {X} (proj : State -> X) key :
  (forall st a, proj {| uidAllocator := a; gidAllocator := gidAllocator st;
                        sequenceCounter := sequenceCounter st;
                        clockReads := clockReads st |} = proj st) ->
  stable proj (allocateUid env key).
Proof.
  intros H st. unfold allocateUid.
  destruct (IdAllocator.allocate _ _ _) as [r a]. apply H.
Qed.

Lemma stable_toGroup {X} (proj : State -> X) users raw :
  (forall key, stable proj (allocateGid env key)) ->
  stable proj (toGroup env users raw).
Proof.
  intros H. unfold toGroup. apply stable_bind; [done|]. intros gid. apply stable_ret.
Qed.

Lemma stable_processGroups {X} (proj : State -> X) raws users :
  (forall key, stable proj (allocateGid env key)) ->
  stable proj (processGroups env raws users).
Proof.
  intros H. revert users. induction raws as [|raw raws IH]; intros users.
  - apply stable_ret.
  - cbn [processGroups]. apply stable_bind; [by apply stable_toGroup|].
    intros [g users1]. apply stable_bind; [done|]. intros [gs users2].
    apply stable_ret.
Qed.

Lemma stable_createSyntheticPrimaryGroups {X} (proj : State -> X) users :
  (forall key, stable proj (allocateGid env key)) ->
  stable proj (createSyntheticPrimaryGroups env users).
Proof.
  intros H. apply stable_mapM. intros u. unfold toSyntheticGroup.
  apply stable_bind; [done|]. intros gid. apply stable_ret.
Qed.

Lemma stable_toUser {X} (proj : State -> X) raw :
  (forall key, stable proj (allocateUid env key)) -> stable proj (now env) ->
  stable proj (toUser env raw).
Proof.
  intros H1 H2. unfold toUser. apply stable_bind; [done|]. intros uid.
  apply stable_bind; [done|]. intros created.
  apply stable_bind; [done|]. intros updated. apply stable_ret.
Qed.

(** The steps of a build that returns. *)
Lemma buildSnapshot_inversion adaptor st S st' :
  buildSnapshot env adaptor st = (Ok S, st') ->
  exists rawUsers rawGroups users0 st1 groups0 st2,
    Adaptor.fetchUsers adaptor = Ok rawUsers
    /\ Adaptor.fetchGroups adaptor = Ok rawGroups
    /\ mapM (toUser env) (filter (fun u => RawUser.enabled u = true) rawUsers) st
       = (Ok users0, st1)
    /\ processGroups env rawGroups users0 st1 = (Ok (groups0, Snapshot.users S), st2)
    /\ (exists synthetic, Snapshot.groups S = groups0 ++ synthetic)
    /\ uidAllocator st' = uidAllocator st1
    /\ Snapshot.sequence S = sequenceCounter st + 1
    /\ Snapshot.featureFlags S = enabledFeatures env.
Proof.
  unfold buildSnapshot. rewrite bind_unfold. unfold fetchAll at 1.
  destruct (Adaptor.fetchUsers adaptor) as [rawUsers| |];
    destruct (Adaptor.fetchGroups adaptor) as [rawGroups| |]; try done.
  rewrite bind_unfold.
  pose proof (stable_mapM sequenceCounter (toUser env)
    (filter (fun u => RawUser.enabled u = true) rawUsers)
    (fun raw => stable_toUser sequenceCounter raw
       (fun key => stable_allocateUid sequenceCounter key (fun _ _ => eq_refl))
       (fun _ => eq_refl)) st) as C1.
  destruct (mapM (toUser env) _ st) as [[users0| |] st1] eqn:Hu; [|done|done].
  rewrite bind_unfold.
  pose proof (stable_processGroups sequenceCounter rawGroups users0
    (fun key => stable_allocateGid sequenceCounter key (fun _ _ => eq_refl)) st1) as C2.
  pose proof (stable_processGroups uidAllocator rawGroups users0
    (fun key => stable_allocateGid uidAllocator key (fun _ _ => eq_refl)) st1) as U2.
  destruct (processGroups env rawGroups users0 st1) as [[[groups0 users]| |] st2] eqn:Hg;
    [|done|done].
  rewrite bind_unfold. simpl in C1, C2, U2.
  destruct (has env "synthetic_primary_group").
  - rewrite bind_unfold.
    pose proof (stable_createSyntheticPrimaryGroups sequenceCounter users
      (fun key => stable_allocateGid sequenceCounter key (fun _ _ => eq_refl)) st2) as C3.
    pose proof (stable_createSyntheticPrimaryGroups uidAllocator users
      (fun key => stable_allocateGid uidAllocator key (fun _ _ => eq_refl)) st2) as U3.
    destruct (createSyntheticPrimaryGroups env users st2) as [[synthetic| |] st3];
      [|done|done].
    simpl in C3, U3. simpl. intros [= <- <-]. simpl.
    exists rawUsers, rawGroups, users0, st1, groups0, st2.
    split_and!; try done; [by eexists|congruence|congruence].
  - simpl. intros [= <- <-]. simpl.
    exists rawUsers, rawGroups, users0, st1, groups0, st2.
    split_and!; try done; [by exists []; rewrite app_nil_r|congruence].
Qed.

End BuilderGroups.

Section BuilderClaims.
Import SnapshotBuilder IdAllocatorInv SnapshotBuilderInv.




(** C8: a raw group with more than [maxGroupMembers] members is in the
    snapshot with exactly the first [maxGroupMembers] of them and
    truncated = true; a group at or below the limit keeps its member list
    and has truncated = false. *)
Theorem group_members_truncated_at_limit
    (env : Env) (adaptor : Adaptor.t) (st st' : State) (S : Snapshot.t)
    (rawGroups : list RawGroup.t) :
  0 <= maxGroupMembers env ->
  buildSnapshot env adaptor st = (Ok S, st') ->
  Adaptor.fetchGroups adaptor = Ok rawGroups ->
  forall (i : nat) (raw : RawGroup.t),
    rawGroups !! i = Some raw ->
    exists g,
      Snapshot.groups S !! i = Some g
      /\ Group.id g = RawGroup.id raw
      /\ let members := default [] (RawGroup.members raw) in
         (maxGroupMembers env < Z.of_nat (length members) ->
            Z.of_nat (length (Group.memberUserIds g)) = maxGroupMembers env
            /\ Group.memberUserIds g = take (Z.to_nat (maxGroupMembers env)) members
            /\ Group.truncated g = Some true)
         /\ (Z.of_nat (length members) <= maxGroupMembers env ->
            Group.memberUserIds g = members /\ Group.truncated g = Some false).
Proof.
  intros Hmax Hbuild Hfg i raw Hi.
  apply buildSnapshot_inversion in Hbuild
    as (rawUsers & rawGroups' & users0 & st1 & groups0 & st2
        & _ & Hfg' & _ & Hproc & [synthetic Hgroups] & _).
  rewrite Hfg in Hfg'. injection Hfg' as <-.
  pose proof (processGroups_post env rawGroups users0 st1) as Hp.
  rewrite Hproc in Hp. destruct Hp as [_ Hp].
  destruct (Hp groups0 (Snapshot.users S) eq_refl) as [_ Hall].
  destruct (Forall2_lookup_l _ _ _ _ _ Hall Hi) as (g & Hg & Hid & _ & _ & Htr & Hmem).
  exists g. split; [|split; [done|cbv zeta; split]].
  - rewrite Hgroups. by apply lookup_app_l_Some.
  - intros Hlong. rewrite Htr, Hmem.
    rewrite (proj2 (Z.ltb_lt _ _) Hlong). unfold JSString.slice0.
    rewrite (proj2 (Z.ltb_ge _ _) Hmax).
    rewrite Z.min_l by lia. split_and!; [|done|done].
    rewrite length_take. lia.
  - intros Hshort. rewrite Htr, Hmem.
    by rewrite (proj2 (Z.ltb_ge _ _) Hshort).
Qed.

End BuilderClaims.

Section BuilderExamplesFacts.
Import SnapshotBuilder IdAllocatorInv SnapshotBuilderInv.



End BuilderExamplesFacts.



Lemma group_members_truncated_witness :
  exists g,
    Snapshot.groups (BuilderExamples.snapshotOf BuilderExamples.built0) !! 0%nat = Some g
    /\ Z.of_nat (length (Group.memberUserIds g)) = 5000
    /\ Group.truncated g = Some true.
Proof.
  destruct (group_members_truncated_at_limit BuilderExamples.env0
              BuilderExamples.adaptor0 BuilderExamples.freshState
              BuilderExamples.built0.2
              (BuilderExamples.snapshotOf BuilderExamples.built0)
              [BuilderExamples.bigGroup])
    with (i := 0%nat) (raw := BuilderExamples.bigGroup)
    as (g & Hg & _ & Hlong & _).
  - by vm_compute.
  - vm_compute. reflexivity.
  - reflexivity.
  - reflexivity.
  - exists g. destruct Hlong as (H1 & _ & H3); [by vm_compute|]. by split_and!.
Defined.

(** ** Two builds from the same allocators *)

Section BuilderDeterminism.
Import SnapshotBuilder SnapshotBuilderInv.

Variables env1 env2 : Env.
Hypothesis same_uidConfig : uidConfig env1 = uidConfig env2.
Hypothesis same_gidConfig : gidConfig env1 = gidConfig env2.
Hypothesis same_features : enabledFeatures env1 = enabledFeatures env2.
Hypothesis same_limit : maxGroupMembers env1 = maxGroupMembers env2.

Lemma agree_ret {A} (R : A -> A -> Prop) a b st1 st2 :
  R a b -> sameAllocators st1 st2 ->
  agree R ((mret a : M A) st1) ((mret b : M A) st2).
Proof. by split. Qed.

Lemma agree_bind {A B} (RA : A -> A -> Prop) (RB : B -> B -> Prop)
    (m1 m2 : M A) (k1 k2 : A -> M B) st1 st2 :
  agree RA (m1 st1) (m2 st2) ->
  (forall a b s1 s2, RA a b -> sameAllocators s1 s2 -> agree RB (k1 a s1) (k2 b s2)) ->
  agree RB ((m1 ≫= k1) st1) ((m2 ≫= k2) st2).
Proof.
  intros [Hs Hr] Hk. rewrite !bind_unfold.
  destruct (m1 st1) as [[a| |] s1], (m2 st2) as [[b| |] s2]; simpl in *; try done.
  by apply Hk.
Qed.

Lemma agree_mapM {A B} (RA : A -> A -> Prop) (RB : B -> B -> Prop)
    (f1 f2 : A -> M B) (l1 l2 : list A) st1 st2 :
  (forall x y s1 s2, RA x y -> sameAllocators s1 s2 -> agree RB (f1 x s1) (f2 y s2)) ->
  Forall2 RA l1 l2 -> sameAllocators st1 st2 ->
  agree (Forall2 RB) (mapM f1 l1 st1) (mapM f2 l2 st2).
Proof.
  intros Hf Hl. revert st1 st2.
  induction Hl as [|x y l1 l2 Hxy Hl IH]; intros st1 st2 Hs.
  - by apply agree_ret.
  - cbn [mapM]. eapply agree_bind; [by apply Hf|].
    intros a b s1 s2 Hab Hs1. eapply agree_bind; [by apply IH|].
    intros as_ bs s1' s2' Habs Hs2. apply agree_ret; [by constructor|done].
Qed.

Lemma agree_now st1 st2 :
  sameAllocators st1 st2 -> agree (fun _ _ => True) (now env1 st1) (now env2 st2).
Proof. by intros [H1 H2]. Qed.

Lemma agree_allocateUid key st1 st2 :
  sameAllocators st1 st2 ->
  agree eq (allocateUid env1 key st1) (allocateUid env2 key st2).
Proof.
  intros [H1 H2]. unfold allocateUid. rewrite same_uidConfig, H1.
  destruct (IdAllocator.allocate _ _ _) as [[r| |] a]; by repeat split.
Qed.

Lemma agree_allocateGid key st1 st2 :
  sameAllocators st1 st2 ->
  agree eq (allocateGid env1 key st1) (allocateGid env2 key st2).
Proof.
  intros [H1 H2]. unfold allocateGid. rewrite same_gidConfig, H2.
  destruct (IdAllocator.allocate _ _ _) as [[r| |] a]; by repeat split.
Qed.

Lemma has_same flag : has env1 flag = has env2 flag.
Proof. unfold has. by rewrite same_features. Qed.

Lemma agree_toUser raw st1 st2 :
  sameAllocators st1 st2 ->
  agree sameUser (toUser env1 raw st1) (toUser env2 raw st2).
Proof.
  intros Hs. unfold toUser.
  eapply agree_bind; [by apply agree_allocateUid|]. intros uid ? s1 s2 <- Hs1.
  eapply agree_bind; [by apply agree_now|]. intros c1 c2 s1' s2' _ Hs2.
  eapply agree_bind; [by apply agree_now|]. intros u1 u2 s1'' s2'' _ Hs3.
  apply agree_ret; [|done]. unfold sameUser, User.withoutStamps; simpl.
  unfold getSyntheticPrimaryGroupId. by rewrite has_same.
Qed.

Lemma sameUser_id u v : sameUser u v -> User.id u = User.id v.
Proof. intros H. by apply (f_equal User.id) in H. Qed.

Lemma sameUser_username u v : sameUser u v -> User.username u = User.username v.
Proof. intros H. by apply (f_equal User.username) in H. Qed.

Lemma sameUser_push groupId u v :
  sameUser u v -> sameUser (User.pushMemberGroup groupId u) (User.pushMemberGroup groupId v).
Proof.
  unfold sameUser, User.withoutStamps. simpl. intros [=]. congruence.
Qed.

Lemma pushToLast_sameUser userId groupId us vs :
  Forall2 sameUser us vs ->
  match pushToLast userId groupId us, pushToLast userId groupId vs with
  | Some us', Some vs' => Forall2 sameUser us' vs'
  | None, None => True
  | _, _ => False
  end.
Proof.
  induction 1 as [|u v us vs Huv Hl IH]; [done|]. simpl.
  destruct (pushToLast userId groupId us), (pushToLast userId groupId vs); try done.
  - by constructor.
  - rewrite (sameUser_id u v Huv). destruct (String.eqb _ _); [|done].
    constructor; [by apply sameUser_push|done].
Qed.

Lemma addMembership_sameUser groupId us vs userId :
  Forall2 sameUser us vs ->
  Forall2 sameUser (addMembership groupId us userId) (addMembership groupId vs userId).
Proof.
  intros H. unfold addMembership.
  pose proof (pushToLast_sameUser userId groupId us vs H) as Hp.
  by destruct (pushToLast userId groupId us), (pushToLast userId groupId vs).
Qed.

Lemma memberships_sameUser groupId members us vs :
  Forall2 sameUser us vs ->
  Forall2 sameUser (fold_left (addMembership groupId) members us)
                   (fold_left (addMembership groupId) members vs).
Proof.
  revert us vs. induction members as [|m members IH]; intros us vs H; [done|].
  simpl. by apply IH, addMembership_sameUser.
Qed.

Lemma agree_toGroup us vs raw st1 st2 :
  Forall2 sameUser us vs -> sameAllocators st1 st2 ->
  agree (fun x y => x.1 = y.1 /\ Forall2 sameUser x.2 y.2)
        (toGroup env1 us raw st1) (toGroup env2 vs raw st2).
Proof.
  intros Hu Hs. unfold toGroup.
  eapply agree_bind; [by apply agree_allocateGid|]. intros gid ? s1 s2 <- Hs1.
  apply agree_ret; [|done]. simpl. rewrite same_limit. split; [done|].
  by apply memberships_sameUser.
Qed.

Lemma agree_processGroups raws us vs st1 st2 :
  Forall2 sameUser us vs -> sameAllocators st1 st2 ->
  agree sameGroupsAndUsers (processGroups env1 raws us st1) (processGroups env2 raws vs st2).
Proof.
  revert us vs st1 st2. induction raws as [|raw raws IH]; intros us vs st1 st2 Hu Hs.
  - by apply agree_ret.
  - cbn [processGroups].
    eapply agree_bind; [by apply agree_toGroup|].
    intros [g1 us1] [g2 vs1] s1 s2 [Hg Hu1] Hs1. simpl in Hg, Hu1. subst g2.
    eapply agree_bind; [by apply IH|].
    intros [gs1 us2] [gs2 vs2] s1' s2' [Hgs Hu2] Hs2. simpl in Hgs, Hu2. subst gs2.
    by apply agree_ret.
Qed.

Lemma agree_toSyntheticGroup u v st1 st2 :
  sameUser u v -> sameAllocators st1 st2 ->
  agree eq (toSyntheticGroup env1 u st1) (toSyntheticGroup env2 v st2).
Proof.
  intros Huv Hs. unfold toSyntheticGroup.
  rewrite (sameUser_id u v Huv), (sameUser_username u v Huv).
  eapply agree_bind; [by apply agree_allocateGid|]. intros gid ? s1 s2 <- Hs1.
  by apply agree_ret.
Qed.

Lemma Forall2_eq {A} (l k : list A) : Forall2 eq l k -> l = k.
Proof. induction 1; congruence. Qed.

Lemma Forall2_same {A} (l : list A) : Forall2 eq l l.
Proof. induction l; by constructor. Qed.

Lemma Forall2_sameUser us vs :
  Forall2 sameUser us vs -> User.withoutStamps <$> us = User.withoutStamps <$> vs.
Proof. induction 1 as [|u v us vs Huv _ IH]; [done|]. rewrite !fmap_cons. by f_equal. Qed.

Lemma agree_buildSnapshot adaptor st1 st2 :
  sameAllocators st1 st2 ->
  agree sameContent (buildSnapshot env1 adaptor st1) (buildSnapshot env2 adaptor st2).
Proof.
  intros Hs. unfold buildSnapshot.
  eapply (agree_bind eq).
  { unfold fetchAll.
    destruct (Adaptor.fetchUsers adaptor), (Adaptor.fetchGroups adaptor); by split. }
  intros [rawUsers rawGroups] ? s1 s2 <- Hs1.
  eapply agree_bind.
  { eapply (agree_mapM eq); [|apply Forall2_same|done].
    intros x ? ? ? <- ?. by apply agree_toUser. }
  intros us vs s1' s2' Hu Hs2.
  eapply agree_bind; [by apply agree_processGroups|].
  intros [gs1 us1] [gs2 vs1] t1 t2 [Hg Hu1] Ht. simpl in Hg, Hu1. subst gs2.
  eapply (agree_bind eq).
  { rewrite has_same. destruct (has env2 "synthetic_primary_group").
    - eapply agree_bind.
      + unfold createSyntheticPrimaryGroups.
        eapply (agree_mapM sameUser eq); [|done|done].
        intros. by apply agree_toSyntheticGroup.
      + intros a b ? ? Hab ?. apply Forall2_eq in Hab. subst b. by apply agree_ret.
    - by apply agree_ret. }
  intros groups ? t1' t2' <- Ht'.
  eapply agree_bind; [by apply agree_now|]. intros g1 g2 r1 r2 _ Hr.
  eapply (agree_bind (fun _ _ => True)).
  { destruct Hr. by split. }
  intros n1 n2 r1' r2' _ Hr'. apply agree_ret; [|done].
  split_and!; simpl; [by apply Forall2_sameUser|done|done].
Qed.

End BuilderDeterminism.

(** C3 (as amended): two builds over the same adapter output, the same
    allocator state and the same feature flags end alike: both return, or
    both throw the same error; when they return, the snapshots have the
    same users up to the createdAt and updatedAt stamps, the same groups
    and the same feature flags, and the allocators are left in the same
    state.  The sequence number is the builder's counter plus one, and the
    stamps are read from the clock, so these may differ. *)
Theorem two_builds_same_content
    (env1 env2 : SnapshotBuilder.Env) (adaptor : Adaptor.t)
    (st1 st2 : SnapshotBuilder.State) :
  SnapshotBuilder.uidConfig env1 = SnapshotBuilder.uidConfig env2 ->
  SnapshotBuilder.gidConfig env1 = SnapshotBuilder.gidConfig env2 ->
  SnapshotBuilder.enabledFeatures env1 = SnapshotBuilder.enabledFeatures env2 ->
  SnapshotBuilder.maxGroupMembers env1 = SnapshotBuilder.maxGroupMembers env2 ->
  SnapshotBuilder.uidAllocator st1 = SnapshotBuilder.uidAllocator st2 ->
  SnapshotBuilder.gidAllocator st1 = SnapshotBuilder.gidAllocator st2 ->
  match SnapshotBuilder.buildSnapshot env1 adaptor st1,
        SnapshotBuilder.buildSnapshot env2 adaptor st2 with
  | (Ok S1, st1'), (Ok S2, st2') =>
      SnapshotBuilderInv.sameContent S1 S2
      /\ Snapshot.sequence S1 = SnapshotBuilder.sequenceCounter st1 + 1
      /\ Snapshot.sequence S2 = SnapshotBuilder.sequenceCounter st2 + 1
      /\ SnapshotBuilderInv.sameAllocators st1' st2'
  | (Throw e1, st1'), (Throw e2, st2') => e1 = e2 /\ SnapshotBuilderInv.sameAllocators st1' st2'
  | (OutOfFuel, _), (OutOfFuel, _) => True
  | _, _ => False
  end.
Proof.
  intros E1 E2 E3 E4 A1 A2.
  pose proof (agree_buildSnapshot env1 env2 E1 E2 E3 E4 adaptor st1 st2
                (conj A1 A2)) as [Hs Hr].
  pose proof (buildSnapshot_inversion env1 adaptor st1) as I1.
  pose proof (buildSnapshot_inversion env2 adaptor st2) as I2.
  destruct (SnapshotBuilder.buildSnapshot env1 adaptor st1) as [[S1| |] st1'],
           (SnapshotBuilder.buildSnapshot env2 adaptor st2) as [[S2| |] st2'];
    simpl in *; try done.
  destruct (I1 S1 st1' eq_refl) as (? & ? & ? & ? & ? & ? & _ & _ & _ & _ & _ & _ & Q1 & _).
  destruct (I2 S2 st2' eq_refl) as (? & ? & ? & ? & ? & ? & _ & _ & _ & _ & _ & _ & Q2 & _).
  done.
Qed.

Lemma two_builds_witness :
  match SnapshotBuilder.buildSnapshot (BuilderExamples.envWith BuilderExamples.fixedClock)
          BuilderExamples.adaptor0 BuilderExamples.freshState,
        SnapshotBuilder.buildSnapshot (BuilderExamples.envWith BuilderExamples.tickingClock)
          BuilderExamples.adaptor0 BuilderExamples.laterState with
  | (Ok S1, st1'), (Ok S2, st2') =>
      SnapshotBuilderInv.sameContent S1 S2
      /\ Snapshot.sequence S1 = 0 + 1
      /\ Snapshot.sequence S2 = 7 + 1
      /\ SnapshotBuilderInv.sameAllocators st1' st2'
  | (Throw e1, st1'), (Throw e2, st2') => e1 = e2 /\ SnapshotBuilderInv.sameAllocators st1' st2'
  | (OutOfFuel, _), (OutOfFuel, _) => True
  | _, _ => False
  end.
Proof.
  apply (two_builds_same_content
           (BuilderExamples.envWith BuilderExamples.fixedClock)
           (BuilderExamples.envWith BuilderExamples.tickingClock)
           BuilderExamples.adaptor0 BuilderExamples.freshState
           BuilderExamples.laterState); reflexivity.
Defined.

(** C3, counterexample: one builder, two builds in a row over an identity
    provider with no users and no groups.  Both builds start from the same
    allocator state and both return, yet the snapshots differ (their
    sequence numbers are 1 and 2). *)
Lemma consecutive_builds_counterexample :
  SnapshotBuilder.uidAllocator BuilderExamples.firstBuild.2
    = SnapshotBuilder.uidAllocator BuilderExamples.freshState
  /\ SnapshotBuilder.gidAllocator BuilderExamples.firstBuild.2
    = SnapshotBuilder.gidAllocator BuilderExamples.freshState
  /\ BuilderExamples.firstBuild.1 = Ok (BuilderExamples.snapshotOf BuilderExamples.firstBuild)
  /\ BuilderExamples.secondBuild.1 = Ok (BuilderExamples.snapshotOf BuilderExamples.secondBuild)
  /\ BuilderExamples.snapshotOf BuilderExamples.firstBuild
     <> BuilderExamples.snapshotOf BuilderExamples.secondBuild.
Proof.
  split_and!; try reflexivity.
  intros H. apply (f_equal Snapshot.sequence) in H. vm_compute in H. discriminate H.
Qed.

(** ** Builds return, and keep the allocator good *)

Section BuilderTotality.
Import SnapshotBuilder IdAllocatorInv SnapshotBuilderInv.

Variable env : Env.

Lemma returns_ret {A} (P : State -> Prop) (Q : A -> State -> Prop) (a : A) :
  (forall st, P st -> Q a st) -> returns P Q (mret a).
Proof. intros H st HP. exists a. split; [done|]. by apply H. Qed.

Lemma returns_bind {A B} (P : State -> Prop) (Q : A -> State -> Prop)
    (R : B -> State -> Prop) (m : M A) (k : A -> M B) :
  returns P Q m -> (forall a, returns (Q a) R (k a)) -> returns P R (m ≫= k).
Proof.
  intros Hm Hk st HP. rewrite bind_unfold. destruct (Hm st HP) as (a & Ha & HQ).
  destruct (m st) as [r st1]. simpl in Ha, HQ. subst r. by apply Hk.
Qed.

Lemma returns_pre {A} (P P' : State -> Prop) (Q : A -> State -> Prop) (m : M A) :
  (forall st, P' st -> P st) -> returns P Q m -> returns P' Q m.
Proof. intros H Hm st HP. by apply Hm, H. Qed.

Lemma roomy_less nu ng nu' ng' st :
  (nu' <= nu)%nat -> (ng' <= ng)%nat -> roomy nu ng st -> roomy nu' ng' st.
Proof. intros Hu Hg [H1 H2]. split; by eapply room_less. Qed.

Hypothesis no_uid_ceiling : IdAllocator.ceiling (uidConfig env) = None.
Hypothesis no_gid_ceiling : IdAllocator.ceiling (gidConfig env) = None.
Hypothesis uid_retries : JS.isSafeInteger (IdAllocator.retryLimit (uidConfig env)).
Hypothesis gid_retries : JS.isSafeInteger (IdAllocator.retryLimit (gidConfig env)).

Lemma returns_allocateUid key nu ng :
  returns (roomy (S nu) ng) (fun _ => roomy nu ng) (allocateUid env key).
Proof.
  intros st [Hu Hg]. unfold allocateUid.
  pose proof (allocate_settles (uidConfig env) key nu (uidAllocator st)
                uid_retries Hu) as H.
  destruct (IdAllocator.allocate _ _ _) as [r a].
  destruct H as (Hroom & _ & Hok). destruct (Hok no_uid_ceiling) as [res ->].
  simpl. eexists. split; [done|]. by split.
Qed.

Lemma returns_allocateGid key nu ng :
  returns (roomy nu (S ng)) (fun _ => roomy nu ng) (allocateGid env key).
Proof.
  intros st [Hu Hg]. unfold allocateGid.
  pose proof (allocate_settles (gidConfig env) key ng (gidAllocator st)
                gid_retries Hg) as H.
  destruct (IdAllocator.allocate _ _ _) as [r a].
  destruct H as (Hroom & _ & Hok). destruct (Hok no_gid_ceiling) as [res ->].
  simpl. eexists. split; [done|]. by split.
Qed.

Lemma returns_now nu ng : returns (roomy nu ng) (fun _ => roomy nu ng) (now env).
Proof. intros st H. by eexists. Qed.

Lemma returns_toUser raw nu ng :
  returns (roomy (S nu) ng) (fun _ => roomy nu ng) (toUser env raw).
Proof.
  unfold toUser. eapply returns_bind; [apply returns_allocateUid|]. intros uid.
  eapply returns_bind; [apply returns_now|]. intros created.
  eapply returns_bind; [apply returns_now|]. intros updated. by apply returns_ret.
Qed.

Lemma returns_mapM_toUser raws nu ng :
  returns (roomy (length raws + nu) ng)
          (fun users st => length users = length raws /\ roomy nu ng st)
          (mapM (toUser env) raws).
Proof.
  induction raws as [|raw raws IH]; [by apply returns_ret|].
  cbn [mapM]. eapply returns_bind; [apply (returns_toUser raw (length raws + nu) ng)|].
  intros u. eapply returns_bind; [apply IH|]. intros us.
  apply returns_ret. intros st [Hlen Hroom]. split; [|done].
  simpl. by rewrite Hlen.
Qed.

Lemma memberships_length groupId members users :
  length (fold_left (addMembership groupId) members users) = length users.
Proof.
  rewrite <- (length_fmap identity), memberships_identity. apply length_fmap.
Qed.

Lemma returns_processGroups raws users nu ng :
  returns (roomy nu (length raws + ng))
          (fun p st => length p.2 = length users /\ roomy nu ng st)
          (processGroups env raws users).
Proof.
  revert users. induction raws as [|raw raws IH]; intros users.
  { by apply returns_ret. }
  cbn [processGroups].
  eapply (returns_bind _ (fun p st => length p.2 = length users
                                     /\ roomy nu (length raws + ng) st)).
  - unfold toGroup. eapply returns_bind; [apply returns_allocateGid|].
    intros gid. apply returns_ret. intros st Hroom. split; [|done].
    apply memberships_length.
  - intros [g users1]. apply (returns_bind _ (fun p st => length p.2 = length users
                                                        /\ roomy nu ng st)).
    + intros st [Hlen Hroom]. destruct (IH users1 st Hroom) as (p & Hp & Hl & Hr).
      exists p. split; [done|]. split; [|done]. simpl in Hlen. congruence.
    + intros [gs users2]. by apply returns_ret.
Qed.

Lemma returns_createSyntheticPrimaryGroups users nu ng :
  returns (roomy nu (length users + ng)) (fun _ => roomy nu ng)
          (createSyntheticPrimaryGroups env users).
Proof.
  unfold createSyntheticPrimaryGroups.
  induction users as [|u users IH]; [by apply returns_ret|].
  cbn [mapM]. eapply (returns_bind _ (fun _ => roomy nu (length users + ng))).
  { unfold toSyntheticGroup.
    eapply returns_bind; [apply (returns_allocateGid _ nu (length users + ng))|].
    intros gid. by apply returns_ret. }
  intros g. eapply returns_bind; [apply IH|]. intros gs. by apply returns_ret.
Qed.

(** With both fetches answered, no ceiling on the allocators, retry limits
    that are safe integers, and room in the allocators for the ids of the
    build (one uid for each user; one gid for each group and, with
    synthetic primary groups, one for each user), a build returns a
    snapshot. *)
Lemma buildSnapshot_returns adaptor rawUsers rawGroups st :
  Adaptor.fetchUsers adaptor = Ok rawUsers ->
  Adaptor.fetchGroups adaptor = Ok rawGroups ->
  roomy (length rawUsers) (length rawGroups + length rawUsers) st ->
  exists snapshot st', buildSnapshot env adaptor st = (Ok snapshot, st').
Proof.
  intros Hu Hg Hroom.
  set (enabled := filter (fun u => RawUser.enabled u = true) rawUsers).
  assert (Hlen : (length enabled <= length rawUsers)%nat) by apply length_filter.
  assert (H : returns (roomy (length enabled + 0) (length rawGroups + (length enabled + 0)))
                      (fun _ _ => True) (buildSnapshot env adaptor)).
  { unfold buildSnapshot.
    eapply (returns_bind _ (fun p st => p = (rawUsers, rawGroups)
              /\ roomy (length enabled + 0)
                       (length rawGroups + (length enabled + 0)) st)).
    { intros s Hs. unfold fetchAll. rewrite Hu, Hg. by eexists. }
    intros [us gs].
    eapply (returns_bind _ (fun users0 st => length users0 = length enabled
              /\ gs = rawGroups
              /\ roomy 0 (length rawGroups + (length enabled + 0)) st)).
    { intros s [[= -> ->] Hs].
      destruct (returns_mapM_toUser enabled 0 _ s Hs) as (users0 & E & Hl & Hr).
      by exists users0. }
    intros users0.
    eapply (returns_bind _ (fun p st => length p.2 = length enabled
              /\ roomy 0 (length enabled + 0) st)).
    { intros s (Hl & -> & Hs).
      destruct (returns_processGroups rawGroups users0 0 _ s Hs) as (p & E & Hl' & Hr).
      exists p. split; [done|]. split; [congruence|done]. }
    intros [groups0 users].
    eapply (returns_bind _ (fun _ _ => True)).
    { destruct (has env _); [|by apply returns_ret].
      eapply (returns_bind _ (fun _ _ => True)); [|intros syn; by apply returns_ret].
      intros s [Hl Hs]. simpl in Hl. rewrite <- Hl in Hs.
      destruct (returns_createSyntheticPrimaryGroups users 0 0 s Hs) as (syn & E & _).
      by exists syn. }
    intros groups. eapply (returns_bind _ (fun _ _ => True)); [by intros s; eexists|].
    intros generatedAt.
    eapply (returns_bind _ (fun _ _ => True)); [by intros s; eexists|].
    intros sequence. by apply returns_ret. }
  destruct (H st) as (snapshot & Hs & _).
  { eapply roomy_less; [| |exact Hroom]; lia. }
  destruct (buildSnapshot env adaptor st) as [r st']. simpl in Hs. subst r.
  by exists snapshot, st'.
Qed.

End BuilderTotality.

Section FreshAllocators.
Import SnapshotBuilder IdAllocatorInv SnapshotBuilderInv.

(** A new allocator with a floor in the hash range has room for every
    number of ids a build can ask for. *)
Lemma room_initial opts n :
  IdAllocator.opt_sequentialStart opts = None ->
  0 <= IdAllocator.floor (IdAllocator.configOf opts) < 2 ^ 31 ->
  Z.of_nat n < 2 ^ 53 - 2 ^ 31 ->
  room n (IdAllocator.initialState opts).
Proof.
  intros Hstart Hfl Hn. exists (2 ^ 31). split_and!; [lia|lia|].
  unfold IdAllocator.initialState. rewrite Hstart.
  set (f := IdAllocator.floor (IdAllocator.configOf opts)) in *.
  split; cbn [IdAllocator.nextSeq IdAllocator.byId default].
  - rewrite succ_exact by lia. lia.
  - rewrite succ_exact by lia. lia.
  - intros i k. by rewrite lookup_empty.
Qed.

(** The builder of the entry point, on its first build: whatever the
    identity provider answers, the build returns a snapshot. *)
Lemma fresh_build_returns clk adaptor rawUsers rawGroups :
  Adaptor.fetchUsers adaptor = Ok rawUsers ->
  Adaptor.fetchGroups adaptor = Ok rawGroups ->
  Z.of_nat (length rawGroups + length rawUsers) < 2 ^ 53 - 2 ^ 31 ->
  exists snapshot st',
    buildSnapshot (BuilderExamples.envWith clk) adaptor BuilderExamples.freshState
    = (Ok snapshot, st').
Proof.
  intros Hu Hg Hn.
  apply (buildSnapshot_returns (BuilderExamples.envWith clk)) with rawUsers rawGroups.
  - reflexivity.
  - reflexivity.
  - split; vm_compute; discriminate.
  - split; vm_compute; discriminate.
  - exact Hu.
  - exact Hg.
  - split.
    + apply room_initial; [reflexivity|split; [vm_compute; discriminate|reflexivity]|lia].
    + apply room_initial; [reflexivity|split; [vm_compute; discriminate|reflexivity]|lia].
Qed.

End FreshAllocators.

Section BuilderInvariant.
Import SnapshotBuilder IdAllocatorInv SnapshotBuilderInv.

Variable env : Env.

(** However a build ends, it leaves the uid allocator good. *)
Lemma buildSnapshot_goodUid adaptor st :
  goodUid env st -> goodUid env (buildSnapshot env adaptor st).2.
Proof.
  intros Hgood. unfold buildSnapshot. rewrite bind_unfold. unfold fetchAll at 1.
  destruct (Adaptor.fetchUsers adaptor) as [rawUsers| |];
    destruct (Adaptor.fetchGroups adaptor) as [rawGroups| |]; try done.
  rewrite bind_unfold.
  pose proof (mapM_toUser_post env
    (filter (fun u => RawUser.enabled u = true) rawUsers) st Hgood) as Hpost.
  destruct (mapM (toUser env) _ st) as [[users0| |] st1];
    destruct Hpost as (Hgood1 & _ & _); [|done|done].
  match goal with |- goodUid env (?m st1).2 =>
    assert (Hst : stable uidAllocator m) end.
  { apply stable_bind.
    { apply stable_processGroups. intros key.
      by apply stable_allocateGid. }
    intros [groups0 users]. apply stable_bind.
    { destruct (has env _); [|apply stable_ret].
      apply stable_bind; [|intros; apply stable_ret].
      apply stable_createSyntheticPrimaryGroups. intros key.
      by apply stable_allocateGid. }
    intros groups. apply stable_bind; [by intros s|]. intros generatedAt.
    apply stable_bind; [by intros s|]. intros sequence. apply stable_ret. }
  unfold goodUid. by rewrite (Hst st1).
Qed.

(** Restoring persisted mappings keeps an allocator good when the restored
    keys are not empty and the restored ids lie above the floor (and are
    not beyond 2^53). *)
Lemma importMapping_good (cfg : IdAllocator.Config) entries st :
  Forall (fun e : string * Z =>
            e.1 <> EmptyString /\ IdAllocator.floor cfg < e.2 <= 2 ^ 53) entries ->
  consistent st /\ aboveFloor cfg st ->
  consistent (IdAllocator.importMapping entries st)
  /\ aboveFloor cfg (IdAllocator.importMapping entries st).
Proof.
  unfold IdAllocator.importMapping. intros Hall. revert st.
  induction Hall as [|[key i] entries [Hkey Hi] _ IH]; intros st [Hc Hf]; [done|].
  simpl in Hkey, Hi. cbn [fold_left]. apply IH. unfold IdAllocator.importEntry.
  destruct (decide (is_Some (IdAllocator.byKey st !! key))) as [|Hk]; [done|].
  destruct (decide (is_Some (IdAllocator.byId st !! i))) as [|Hid]; [done|].
  apply eq_None_not_Some in Hk, Hid.
  assert (Hc' := consistent_commit key i st Hc Hkey Hk Hid).
  assert (Hf' := aboveFloor_commit cfg key i st Hf (proj1 Hi)).
  destruct (_ <=? i); [|done].
  pose proof (floor_exact _ _ Hf) as Hfl.
  pose proof (succ_bounds i ltac:(lia) (proj2 Hi)) as Hs.
  split.
  - by apply (consistent_same_maps (IdAllocator.commit key i st)).
  - split; [apply Hf'|simpl; lia|done|simpl; lia].
Qed.

End BuilderInvariant.

(** ** The refresh scheduler *)

Section SchedulerFacts.
Import RefreshScheduler.

Context {Number : Type} `{Millis Number}.
Variable cfg : Config (Number := Number).
Variable env : SnapshotBuilder.Env.

Lemma references_setRunning r t (sys : System (Number := Number)) :
  references (setRunning r t sys) = references sys.
Proof. reflexivity. Qed.

Lemma references_scheduleNext (sys : System (Number := Number)) :
  references (scheduleNext cfg sys) = references sys.
Proof.
  unfold scheduleNext. destruct (negb _); [done|].
  destruct (_ <=? _); apply references_setRunning.
Qed.

Lemma references_performRefresh adaptor sys :
  (forall snapshot,
     (SnapshotBuilder.buildSnapshot env adaptor (builder sys)).1 <> Ok snapshot) ->
  references (performRefresh cfg env adaptor sys) = references sys.
Proof.
  intros Hfail. unfold performRefresh.
  destruct (SnapshotBuilder.buildSnapshot env adaptor (builder sys)) as [[snapshot| |] b];
    [|done|done].
  by destruct (Hfail snapshot).
Qed.

Lemma references_step ev sys :
  (forall snapshot, buildOf env ev sys <> Some (Ok snapshot)) ->
  references (step cfg env ev sys) = references sys.
Proof.
  intros Hfail. destruct ev as [adaptor|adaptor|adaptor|]; simpl in *.
  - unfold start. destruct (isRunning (scheduler sys)); [done|].
    rewrite references_scheduleNext, references_performRefresh; [done|].
    intros snapshot E. apply (Hfail snapshot). by rewrite <- E.
  - unfold timerFires. destruct (isRunning (scheduler sys)); [|done].
    rewrite references_scheduleNext, references_performRefresh; [done|].
    intros snapshot E. apply (Hfail snapshot). by rewrite <- E.
  - unfold forceRefresh. apply references_performRefresh.
    intros snapshot E. apply (Hfail snapshot). by rewrite <- E.
  - reflexivity.
Qed.

End SchedulerFacts.

(** C4: while every build fails (the adapter fetch or the construction of
    the snapshot throws), the scheduler's current-snapshot reference and the
    reference the LDAP server reads stay what they were, over any number of
    refreshes: timer refreshes, forced ones, and those after the scheduler
    has stopped at maxRetries. *)
Theorem failed_builds_keep_snapshot
    {Number : Type} `{RefreshScheduler.Millis Number}
    (cfg : RefreshScheduler.Config (Number := Number)) (env : SnapshotBuilder.Env)
    (evs : list RefreshScheduler.event) (sys : RefreshScheduler.System) :
  RefreshScheduler.everyBuildFails cfg env evs sys ->
  RefreshScheduler.getCurrentSnapshot (RefreshScheduler.run cfg env evs sys)
    = RefreshScheduler.getCurrentSnapshot sys
  /\ RefreshScheduler.served (RefreshScheduler.run cfg env evs sys)
    = RefreshScheduler.served sys.
Proof.
  revert sys. induction evs as [|ev evs IH]; intros sys Hfail; [done|].
  destruct Hfail as [Hev Hrest]. specialize (IH _ Hrest).
  pose proof (references_step cfg env ev sys Hev) as Hstep.
  unfold RefreshScheduler.references in Hstep. injection Hstep as E1 E2.
  change (RefreshScheduler.run cfg env (ev :: evs) sys)
    with (RefreshScheduler.run cfg env evs (RefreshScheduler.step cfg env ev sys)).
  destruct IH as [I1 I2]. split; congruence.
Qed.

Lemma failed_builds_witness :
  RefreshScheduler.getCurrentSnapshot
    (RefreshScheduler.run SchedulerExamples.cfg0 BuilderExamples.env0
       SchedulerExamples.outage SchedulerExamples.serving)
    = RefreshScheduler.getCurrentSnapshot SchedulerExamples.serving
  /\ RefreshScheduler.served
       (RefreshScheduler.run SchedulerExamples.cfg0 BuilderExamples.env0
          SchedulerExamples.outage SchedulerExamples.serving)
     = Some BuilderExamples.smallSnapshot
  /\ RefreshScheduler.isRunning (RefreshScheduler.scheduler
       (RefreshScheduler.run SchedulerExamples.cfg0 BuilderExamples.env0
          SchedulerExamples.outage SchedulerExamples.serving)) = false
  /\ RefreshScheduler.consecutiveFailures (RefreshScheduler.scheduler
       (RefreshScheduler.run SchedulerExamples.cfg0 BuilderExamples.env0
          SchedulerExamples.outage SchedulerExamples.serving)) = 4.
Proof.
  destruct (failed_builds_keep_snapshot SchedulerExamples.cfg0 BuilderExamples.env0
              SchedulerExamples.outage SchedulerExamples.serving) as [E1 E2].
  { repeat split; intros snapshot; vm_compute; discriminate. }
  split_and!; [exact E1| |by vm_compute|by vm_compute].
  rewrite E2. by vm_compute.
Defined.

(** ** The LDAP server: bind *)

Section BindFacts.
Import LDAP BindAuthenticator.

(** The authenticator that the server never calls answers the anonymous
    bind by the flag alone. *)
Lemma authenticate_anonymous (cfg : Config) :
  let result := authenticate cfg {| dn := EmptyString; password := EmptyString |} in
  success result = allowAnonymousBind cfg
  /\ resultCode result =
     (if allowAnonymousBind cfg then Success else InsufficientAccessRights).
Proof.
  cbv zeta. unfold authenticate. cbn.
  destruct (allowAnonymousBind cfg); split; reflexivity.
Qed.

End BindFacts.

(** C1 (as amended): a simple bind with empty DN and empty password
    succeeds if and only if allowAnonymousBind is true or neither a bind DN
    nor a bind password is configured; when it does not succeed the result
    code is invalidCredentials. *)
Theorem anonymous_bind_success_iff (cfg : LDAPServer.Config) (version : Z) :
  let response :=
    LDAPServer.handleBind cfg
      {| LDAP.BindRequest.version := version;
         LDAP.BindRequest.name := EmptyString;
         LDAP.BindRequest.authentication := LDAP.Simple EmptyString |} in
  (LDAP.BindResponse.resultCode response = LDAP.Success <->
     LDAPServer.allowAnonymousBind cfg = true
     \/ (JS.truthyOpt (LDAPServer.bindDN cfg) = false
         /\ JS.truthyOpt (LDAPServer.bindPassword cfg) = false))
  /\ (LDAP.BindResponse.resultCode response = LDAP.Success
      \/ LDAP.BindResponse.resultCode response = LDAP.InvalidCredentials).
Proof.
  unfold LDAPServer.handleBind. simpl.
  destruct (LDAPServer.allowAnonymousBind cfg); simpl; [by intuition|].
  destruct (JS.truthyOpt (LDAPServer.bindDN cfg)) eqn:Hdn; simpl.
  - assert (Some EmptyString <> LDAPServer.bindDN cfg) as Hne.
    { intros E. rewrite <- E in Hdn. discriminate Hdn. }
    rewrite bool_decide_eq_false_2 by done. simpl.
    split; [|by right]. split; [done|]. by intros [?|[? _]].
  - destruct (JS.truthyOpt (LDAPServer.bindPassword cfg)) eqn:Hpw; simpl.
    + assert (Some EmptyString <> LDAPServer.bindPassword cfg) as Hne.
      { intros E. rewrite <- E in Hpw. discriminate Hpw. }
      rewrite (bool_decide_eq_false_2 (Some EmptyString = LDAPServer.bindPassword cfg))
        by done.
      rewrite andb_false_r. simpl.
      split; [|by right]. split; [done|]. by intros [?|[_ ?]].
    + split; [|by left]. split; [|done]. intros _. by right.
Qed.

(** C1, counterexample: allowAnonymousBind is false and no service account
    is configured; the bind with empty DN and empty password succeeds. *)
Lemma anonymous_bind_counterexample :
  LDAPServer.allowAnonymousBind ServerExamples.openConfig = false
  /\ LDAP.BindResponse.resultCode
       (LDAPServer.handleBind ServerExamples.openConfig ServerExamples.anonymousBind)
     = LDAP.Success.
Proof. by split. Qed.

(** C10: with allowAnonymousBind true, handleBind answers every
    BindRequest with success: simple binds with any DN and password, and
    SASL binds; the configured bindDN and bindPassword are not looked at. *)
Theorem anonymous_mode_accepts_every_bind
    (cfg : LDAPServer.Config) (request : LDAP.BindRequest.t) :
  LDAPServer.allowAnonymousBind cfg = true ->
  LDAPServer.handleBind cfg request =
    {| LDAP.BindResponse.resultCode := LDAP.Success;
       LDAP.BindResponse.matchedDN := EmptyString;
       LDAP.BindResponse.diagnosticMessage := "Anonymous bind successful" |}.
Proof. intros Hallow. unfold LDAPServer.handleBind. by rewrite Hallow. Qed.

Lemma anonymous_mode_witness :
  LDAP.BindResponse.resultCode
    (LDAPServer.handleBind ServerExamples.mixedConfig ServerExamples.wrongPasswordBind)
  = LDAP.Success.
Proof.
  rewrite (anonymous_mode_accepts_every_bind ServerExamples.mixedConfig
             ServerExamples.wrongPasswordBind); reflexivity.
Defined.

(** ** The LDAP server: search *)

Section SearchFacts.
Import LDAP LDAPServer.

Variable cfg : Config.

Lemma fold_pushUser ctx (us : list User.t) (entries : list SearchResultEntry.t) :
  fold_left (pushUser ctx) us entries =
  entries ++ (userEntryOf ctx <$> filter (fun u => matchingUser ctx u = true) us).
Proof.
  revert entries. induction us as [|u us IH]; intros entries; simpl.
  - by rewrite app_nil_r.
  - rewrite IH. unfold pushUser. fold (matchingUser ctx u). fold (userEntryOf ctx u).
    rewrite filter_cons. destruct (matchingUser ctx u) eqn:E.
    + rewrite decide_True by done. rewrite fmap_cons. by rewrite <- app_assoc.
    + by rewrite decide_False by done.
Qed.

Lemma fold_pushGroup ctx (gs : list Group.t) (entries : list SearchResultEntry.t) :
  fold_left (pushGroup ctx) gs entries =
  entries ++ (groupEntryOf ctx <$> filter (fun g => matchingGroup ctx g = true) gs).
Proof.
  revert entries. induction gs as [|g gs IH]; intros entries; simpl.
  - by rewrite app_nil_r.
  - rewrite IH. unfold pushGroup. fold (matchingGroup ctx g). fold (groupEntryOf ctx g).
    rewrite filter_cons. destruct (matchingGroup ctx g) eqn:E.
    + rewrite decide_True by done. rewrite fmap_cons. by rewrite <- app_assoc.
    + by rewrite decide_False by done.
Qed.

(** The number of entries sent: the smaller of the server limit and a
    positive client limit caps it. *)
Lemma applyLimits_length (entries : list SearchResultEntry.t) (clientSizeLimit : Z) :
  0 <= sizeLimit cfg ->
  Z.of_nat (length (applyLimits cfg entries clientSizeLimit)) =
  Z.min (Z.of_nat (length entries))
        (if 0 <? clientSizeLimit then Z.min (sizeLimit cfg) clientSizeLimit
         else sizeLimit cfg).
Proof.
  intros Hs. unfold applyLimits, JSString.slice0. rewrite length_take.
  destruct (0 <? clientSizeLimit) eqn:E; destruct (_ <? 0) eqn:E0; lia.
Qed.

(** The result code of a search that is answered from a snapshot: it is
    sizeLimitExceeded exactly when the entries found reach the limit of
    the server; the limit of the client plays no part. *)
Lemma handleSearch_exceeded snapshot messageID req controls :
  isBaseObjectInScope cfg (SearchRequest.baseObject (normalizeSearchRequest req)) = true ->
  doneCode (handleSearch cfg (Some snapshot) messageID req controls) =
  Some (if sizeLimit cfg <=?
           Z.of_nat (length (executeSearch
             (createSearchContext cfg (Some snapshot) (normalizeSearchRequest req))))
        then SizeLimitExceeded else Success).
Proof.
  intros Hscope. unfold handleSearch. rewrite Hscope. simpl.
  unfold doneCode. rewrite last_snoc. reflexivity.
Qed.

(** The result code of every answer of [handleSearch]. *)
Lemma handleSearch_doneCode snapshot messageID req controls :
  exists code,
    doneCode (handleSearch cfg snapshot messageID req controls) = Some code
    /\ (code = Success \/ code = SizeLimitExceeded \/ code = Unavailable).
Proof.
  unfold handleSearch. destruct snapshot as [snapshot|].
  - destruct (negb (isBaseObjectInScope cfg _)).
    + exists Success. by split; [|left].
    + unfold doneCode. rewrite last_snoc. simpl.
      destruct (sizeLimit cfg <=? _); eexists; split; eauto.
  - exists Unavailable. split; [done|]. by right; right.
Qed.

End SearchFacts.

(** C7 (as amended): within a scope pass other than the base search of the
    RootDSE, the entries come in this order: the matching users in the
    order of the snapshot, then the matching groups in the order of the
    snapshot, then, unless the scope is base, the organizational units
    ou=users and ou=groups.  Nothing is sorted. *)
Theorem search_results_order (ctx : LDAPServer.SearchContext) :
  let req := LDAPServer.request ctx in
  LDAPServer.executeSearch ctx =
  if String.eqb (LDAP.SearchRequest.baseObject req) EmptyString
     && (LDAP.SearchRequest.scope req =? 0)
  then
    (if LDAPServer.matchesFilter (LDAP.SearchRequest.filter req)
          (LDAPServer.buildAttributesMapFromEntry (LDAPServer.createRootDSEEntry ctx))
     then [LDAPServer.createRootDSEEntry ctx] else [])
  else
    (LDAPServer.userEntryOf ctx
       <$> filter (fun u => LDAPServer.matchingUser ctx u = true) (LDAPServer.users ctx))
    ++ (LDAPServer.groupEntryOf ctx
          <$> filter (fun g => LDAPServer.matchingGroup ctx g = true) (LDAPServer.groups ctx))
    ++ (if LDAP.SearchRequest.scope req =? 0 then [] else LDAPServer.createOUEntries ctx).
Proof.
  intros req. unfold LDAPServer.executeSearch. fold req.
  destruct (String.eqb _ _ && _); [done|].
  rewrite fold_pushGroup, fold_pushUser. simpl.
  destruct (LDAP.SearchRequest.scope req =? 0); simpl.
  - by rewrite app_nil_r.
  - by rewrite app_assoc.
Qed.

(** C7, counterexample: the snapshot lists bob before alice and staff
    before admins; a subtree search from the suffix emits bob, alice, staff,
    admins and the two organizational units last, which is not the order
    the specification describes. *)
Lemma search_order_counterexample :
  LDAP.SearchResultEntry.objectName
    <$> LDAPServer.executeSearch ServerExamples.subtreeContext
  = [ "uid=bob,ou=users,dc=example,dc=com"; "uid=alice,ou=users,dc=example,dc=com";
      "cn=staff,ou=groups,dc=example,dc=com"; "cn=admins,ou=groups,dc=example,dc=com";
      "ou=users,dc=example,dc=com"; "ou=groups,dc=example,dc=com" ]
  /\ LDAP.SearchResultEntry.objectName
       <$> SearchOrderSpec.emitted ServerExamples.subtreeContext
     = [ "ou=users,dc=example,dc=com"; "ou=groups,dc=example,dc=com";
         "uid=alice,ou=users,dc=example,dc=com"; "uid=bob,ou=users,dc=example,dc=com";
         "cn=admins,ou=groups,dc=example,dc=com"; "cn=staff,ou=groups,dc=example,dc=com" ]
  /\ LDAPServer.executeSearch ServerExamples.subtreeContext
     <> SearchOrderSpec.emitted ServerExamples.subtreeContext.
Proof.
  split_and!; [by vm_compute|by vm_compute|].
  intros H. apply (f_equal (fmap LDAP.SearchResultEntry.objectName)) in H.
  vm_compute in H. discriminate H.
Qed.

Section FilterParser.
Import LDAP LDAPCodec.

Variable fromBER : list Z -> option BaseBlock.
Variable TextDecoder_decode : list Z -> string.

(** A block whose tag has no case of its own in [parseFilter] becomes the
    presence filter on the text decoded from it, or the parse throws. *)
Lemma parseFilterBlock_fallback block :
  recognized (tagNumberOf block) = false ->
  parseFilterBlock fromBER TextDecoder_decode block =
  match decodeString fromBER TextDecoder_decode (Some block) "fallback" with
  | Ok guess =>
      if JS.truthy guess then Ok (Present guess)
      else Throw ("Unsupported or unrecognized filter tag "
                  +:+ JSString.ofInt (tagNumberOf block))
  | _ => Throw ("Unsupported or unrecognized filter tag "
                +:+ JSString.ofInt (tagNumberOf block))
  end.
Proof.
  unfold recognized. intros Htag.
  repeat (apply orb_false_elim in Htag as [Htag ?]).
  destruct block as [tc tn view|tc tn view children];
    cbn [parseFilterBlock tagNumberOf] in *;
    repeat match goal with H : (_ =? _) = false |- _ => rewrite H; clear H end;
    reflexivity.
Qed.

Lemma parseEach_lookup (l : list BaseBlock) (fs : list Filter) (k : nat) (b : BaseBlock) :
  parseEach (parseFilterBlock fromBER TextDecoder_decode) l = Ok fs ->
  l !! k = Some b ->
  exists g, parseFilterBlock fromBER TextDecoder_decode b = Ok g /\ fs !! k = Some g.
Proof.
  revert fs k. induction l as [|x l IH]; intros fs k; [done|].
  cbn [parseEach].
  destruct (parseFilterBlock fromBER TextDecoder_decode x) as [f| |] eqn:Hx;
    [|done|done].
  cbn [mbind outcome_bind bind_outcome].
  fold (parseEach (parseFilterBlock fromBER TextDecoder_decode) l).
  destruct (parseEach _ l) as [fs'| |] eqn:Hl; [|done|done].
  cbn [bind_outcome]. intros [= <-]. destruct k as [|k]; simpl.
  - intros [= <-]. by exists f.
  - by apply IH.
Qed.

(** The parser works component by component: a filter that is parsed
    holds, at the place of every component, what the parser makes of that
    component. *)
Lemma parseFilterBlock_at path root block f :
  blockAt path root = Some block ->
  parseFilterBlock fromBER TextDecoder_decode root = Ok f ->
  exists g, parseFilterBlock fromBER TextDecoder_decode block = Ok g
            /\ filterAt path f = Some g.
Proof.
  revert root f. induction path as [|k path IH]; intros root f Hat Hparse.
  { injection Hat as <-. by exists f. }
  destruct root as [tc tn view|tc tn view components]; [done|].
  cbn [blockAt] in Hat. cbn [parseFilterBlock tagNumberOf] in Hparse.
  destruct (tn =? FilterType.And) eqn:Hand.
  { cbn [orb] in Hat.
    destruct (parseEach _ components) as [fs| |] eqn:He; [|done|done].
    injection Hparse as <-.
    destruct (components !! k) as [child|] eqn:Hk; [|done]. simpl in Hat.
    destruct (parseEach_lookup _ _ _ _ He Hk) as (g & Hg & Hfs).
    destruct (IH child g Hat Hg) as (g' & Hg' & Hpath).
    exists g'. split; [done|]. cbn [filterAt]. by rewrite Hfs. }
  destruct (tn =? FilterType.Or) eqn:Hor.
  { cbn [orb] in Hat.
    destruct (parseEach _ components) as [fs| |] eqn:He; [|done|done].
    injection Hparse as <-.
    destruct (components !! k) as [child|] eqn:Hk; [|done]. simpl in Hat.
    destruct (parseEach_lookup _ _ _ _ He Hk) as (g & Hg & Hfs).
    destruct (IH child g Hat Hg) as (g' & Hg' & Hpath).
    exists g'. split; [done|]. cbn [filterAt]. by rewrite Hfs. }
  cbn [orb] in Hat. destruct (tn =? FilterType.Not) eqn:Hnot; [|done].
  destruct k as [|k]; [|done]. destruct components as [|first rest]; [done|].
  simpl in Hat.
  destruct (parseFilterBlock fromBER TextDecoder_decode first) as [g| |] eqn:Hg;
    [|done|done].
  injection Hparse as <-.
  destruct (IH first g Hat Hg) as (g' & Hg' & Hpath).
  by exists g'.
Qed.

End FilterParser.

(** C6 (as amended): a component of a search filter whose tag is none of
    the filter types 0..8 (extensibleMatch, tag 9, for one) is parsed as
    the presence filter on the text decoded from the component when that
    text is not empty: alone it is the filter of the request, and below
    and, or and not it stands at the component's place in every filter
    the parser returns.  When the text is empty the parse of the whole
    filter throws and the request gets the presence filter on
    objectClass.  Whatever the filter of a SearchRequest is, the answer
    ends with a SearchResultDone whose code is success,
    sizeLimitExceeded, unavailable or insufficientAccessRights, never
    unwillingToPerform. *)
Theorem unrecognized_filter_is_presence
    (fromBER : list Z -> option LDAPCodec.BaseBlock)
    (TextDecoder_decode : list Z -> string)
    (root block : LDAPCodec.BaseBlock) (path : list nat) (text : string) :
  LDAPCodec.blockAt path root = Some block ->
  ~ (0 <= LDAPCodec.tagNumberOf block <= 8) ->
  LDAPCodec.decodeString fromBER TextDecoder_decode (Some block) "fallback" = Ok text ->
  LDAPCodec.decodeSearchFilter fromBER TextDecoder_decode (Some block)
    = LDAP.Present (if JS.truthy text then text else "objectClass")
  /\ (JS.truthy text = true ->
      forall f, LDAPCodec.parseFilter fromBER TextDecoder_decode (Some root) = Ok f ->
        LDAPCodec.decodeSearchFilter fromBER TextDecoder_decode (Some root) = f
        /\ LDAPCodec.filterAt path f = Some (LDAP.Present text))
  /\ (JS.truthy text = false ->
      LDAPCodec.decodeSearchFilter fromBER TextDecoder_decode (Some root)
        = LDAP.Present "objectClass")
  /\ forall (cfg : LDAPServer.Config) (snapshot : option Snapshot.t)
       (authenticated : bool) (message : LDAP.LDAPMessage.t) (req : LDAP.SearchRequest.t),
       LDAP.LDAPMessage.protocolOp message = LDAP.OpSearchRequest req ->
       exists code,
         LDAPServer.doneCode (LDAPServer.handleMessage cfg snapshot authenticated message).1.1
           = Some code
         /\ code <> LDAP.UnwillingToPerform
         /\ (code = LDAP.Success \/ code = LDAP.SizeLimitExceeded
             \/ code = LDAP.Unavailable \/ code = LDAP.InsufficientAccessRights).
Proof.
  intros Hat Htag Htext.
  assert (Hrec : LDAPCodec.recognized (LDAPCodec.tagNumberOf block) = false).
  { unfold LDAPCodec.recognized, LDAP.FilterType.And, LDAP.FilterType.Or,
      LDAP.FilterType.Not, LDAP.FilterType.EqualityMatch, LDAP.FilterType.Substrings,
      LDAP.FilterType.Present.
    repeat (apply orb_false_intro); apply Z.eqb_neq; lia. }
  pose proof (parseFilterBlock_fallback fromBER TextDecoder_decode block Hrec) as Hfb.
  rewrite Htext in Hfb. split_and!.
  - unfold LDAPCodec.decodeSearchFilter, LDAPCodec.parseFilter. rewrite Hfb.
    by destruct (JS.truthy text).
  - intros Htruthy f Hparse. rewrite Htruthy in Hfb.
    unfold LDAPCodec.decodeSearchFilter. rewrite Hparse. split; [done|].
    destruct (parseFilterBlock_at fromBER TextDecoder_decode path root block f Hat Hparse)
      as (g & Hg & Hpath).
    rewrite Hfb in Hg. by injection Hg as <-.
  - intros Hempty. rewrite Hempty in Hfb.
    unfold LDAPCodec.decodeSearchFilter, LDAPCodec.parseFilter.
    destruct (LDAPCodec.parseFilterBlock fromBER TextDecoder_decode root) as [f| |] eqn:Hparse;
      [|done|done].
    destruct (parseFilterBlock_at fromBER TextDecoder_decode path root block f Hat Hparse)
      as (g & Hg & _).
    by rewrite Hfb in Hg.
  - intros cfg snapshot authenticated message req Hop.
    unfold LDAPServer.handleMessage. rewrite Hop.
    destruct (negb authenticated && _); simpl.
    + exists LDAP.InsufficientAccessRights. split_and!; [done|done|]. by do 3 right.
    + destruct (handleSearch_doneCode cfg snapshot (LDAP.LDAPMessage.messageID message)
                  req (LDAP.LDAPMessage.controls message)) as (code & Hc & Hcases).
      exists code. split; [done|].
      destruct Hcases as [-> | [-> | ->]]; split; try done; tauto.
Qed.

Lemma unrecognized_filter_witness :
  ServerExamples.extensibleMatchFilter = LDAP.Present ServerExamples.extensibleMatchText
  /\ (forall f,
        LDAPCodec.parseFilter ServerExamples.noBER ServerExamples.byteDecoder
          (Some ServerExamples.nestedExtensibleBlock) = Ok f ->
        LDAPCodec.decodeSearchFilter ServerExamples.noBER ServerExamples.byteDecoder
          (Some ServerExamples.nestedExtensibleBlock) = f
        /\ LDAPCodec.filterAt [1%nat; 0%nat] f
           = Some (LDAP.Present ServerExamples.extensibleMatchText))
  /\ LDAPCodec.decodeSearchFilter ServerExamples.noBER ServerExamples.byteDecoder
       (Some ServerExamples.nestedExtensibleBlock)
     = LDAP.And [LDAP.Present (ServerExamples.byteDecoder ServerExamples.presentBytes);
                 LDAP.Not (LDAP.Present ServerExamples.extensibleMatchText)].
Proof.
  pose proof (unrecognized_filter_is_presence ServerExamples.noBER
                ServerExamples.byteDecoder ServerExamples.nestedExtensibleBlock
                ServerExamples.extensibleMatchBlock [1%nat; 0%nat]
                ServerExamples.extensibleMatchText) as H.
  destruct H as (Halone & Hnested & _ & _).
  - reflexivity.
  - simpl. lia.
  - reflexivity.
  - split_and!; [exact Halone|by apply Hnested|by vm_compute].
Defined.

(** An extensibleMatch component without text, below a negation: the whole
    filter is replaced. *)
Lemma empty_extensible_defaults :
  LDAPCodec.decodeSearchFilter ServerExamples.noBER ServerExamples.byteDecoder
    (Some (LDAPCodec.Constructed 3 2 [] [ServerExamples.emptyExtensibleBlock]))
  = LDAP.Present "objectClass".
Proof. reflexivity. Qed.

(** C6, counterexample: a SearchRequest whose filter is an extensibleMatch
    block; the search ends with success, not with unwillingToPerform. *)
Lemma unrecognized_filter_counterexample :
  LDAPCodec.recognized (LDAPCodec.tagNumberOf ServerExamples.extensibleMatchBlock) = false
  /\ LDAPServer.doneCode
       (LDAPServer.handleMessage ServerExamples.openConfig
          (Some BuilderExamples.smallSnapshot) false
          (ServerExamples.searchMessage
             (ServerExamples.subtreeSearch 0 ServerExamples.extensibleMatchFilter))).1.1
     = Some LDAP.Success
  /\ LDAP.Success <> LDAP.UnwillingToPerform.
Proof. split_and!; [reflexivity|by vm_compute|discriminate]. Qed.

(** C5, the code at the failing input: the server limit is 1000, the client
    asks for at most one entry, two users match; one entry is sent and the
    SearchResultDone carries success, where sizeLimitExceeded is due. *)
Lemma client_size_limit_done_code :
  let response :=
    LDAPServer.handleSearch ServerExamples.openConfig
      (Some BuilderExamples.smallSnapshot) 2
      (ServerExamples.subtreeSearch 1 (LDAP.Present "uid")) None in
  length (LDAPServer.executeSearch
            (LDAPServer.createSearchContext ServerExamples.openConfig
               (Some BuilderExamples.smallSnapshot)
               (LDAPServer.normalizeSearchRequest
                  (ServerExamples.subtreeSearch 1 (LDAP.Present "uid"))))) = 2%nat
  /\ LDAP.SearchResultEntry.objectName <$> LDAPServer.entriesOf response
     = ["uid=bob,ou=users,dc=example,dc=com"]
  /\ length response = 2%nat
  /\ LDAPServer.doneCode response = Some LDAP.Success.
Proof. by vm_compute. Qed.
